(** * unravelsports: tracking frames to graphs, and dataset partitioning

    A shallow embedding of
      - [unravel/soccer/graphs/graph_converter_pl.py]
        (class [SoccerGraphConverterPolars]), and
      - [unravel/utils/objects/custom_spektral_dataset.py]
        (class [CustomSpektralDataset]),
    together with the properties their specification states about them.

    Conventions.
      - A finite Python/polars float is a rational [Q]. Comparison and
        selection, all the converter does to floats, are exact on finite
        values; the sums, quotients and products of the split proportions
        are taken exactly, the rounding of floating-point arithmetic is not
        modelled.
      - A polars data frame is the list of its rows, in row order.
      - A Python exception is a value of [PyError]; a function that may raise
        returns a [result]. *)

From Stdlib Require Import ZArith QArith Qround Lia Lqa.
From stdpp Require Import base list strings.

Local Open Scope Z_scope.

(** ** Python values, exceptions and slicing *)

Module Py.

Inductive PyError : Type :=
  | Exception (msg : string)
  | NotImplementedError
  | IndexError
  | AttributeError
  | ZeroDivisionError
  | ValueError
  | ColumnNotFoundError.

Inductive result (A : Type) : Type :=
  | Ok (a : A)
  | Raise (e : PyError).
Arguments Ok {A} a.
Arguments Raise {A} e.

Definition bind {A B : Type} (m : result A) (k : A -> result B) : result B :=
  match m with
  | Ok a => k a
  | Raise e => Raise e
  end.

Definition of_option {A : Type} (e : PyError) (o : option A) : result A :=
  match o with
  | Some a => Ok a
  | None => Raise e
  end.

#[global] Instance result_bind : MBind result := fun A B k m => bind m k.
#[global] Instance result_ret : MRet result := @Ok.

Definition raises {A : Type} (m : result A) : Prop := exists e, m = Raise e.

(** A cell of a column whose type is not fixed by the code: a number or a
    string (labels, graph ids, entity ids). *)
Inductive Val : Type :=
  | VNum (q : Q)
  | VStr (s : string).

(** [==] on cells: numeric equality on numbers, string equality on strings. *)
Definition Val_eqb (a b : Val) : bool :=
  match a, b with
  | VNum p, VNum q => Qeq_bool p q
  | VStr s, VStr t => bool_decide (s = t)
  | _, _ => false
  end.

(** A Python object passed as a configuration parameter. *)
Inductive PyVal : Type :=
  | PNone
  | PBool (b : bool)
  | PInt (z : Z)
  | PFloat (q : Q)
  | PStr (s : string).

(** [isinstance(v, str)] *)
Definition isinstance_str (v : PyVal) : bool :=
  match v with PStr _ => true | _ => false end.

(** [isinstance(v, int)]; [bool] is a subclass of [int]. *)
Definition isinstance_int (v : PyVal) : bool :=
  match v with PInt _ | PBool _ => true | _ => false end.

(** [isinstance(v, float)] *)
Definition isinstance_float (v : PyVal) : bool :=
  match v with PFloat _ => true | _ => false end.

(** Truth value of an object in a condition. *)
Definition truthy (v : PyVal) : bool :=
  match v with
  | PNone => false
  | PBool b => b
  | PInt z => negb (z =? 0)
  | PFloat q => negb (Qeq_bool q 0)
  | PStr s => negb (bool_decide (s = ""))
  end.

(** The distinct values of a list, each at its first occurrence: the keys of
    a [group_by], the members of a [set(...)]. *)
Fixpoint unique {K : Type} `{EqDecision K} (l : list K) : list K :=
  match l with
  | [] => []
  | k :: l' => k :: filter (fun k' => k' <> k) (unique l')
  end.

(** [a > b] on floats. *)
Definition Qgtb (a b : Q) : bool := negb (Qle_bool a b).

(** [int(q)]: truncation towards zero. *)
Definition py_int (q : Q) : Z := Z.quot (Qnum q) (Zpos (Qden q)).

(** [l[start:stop]] with Python's treatment of negative and out-of-range
    bounds. *)
Definition slice_bound (n i : Z) : Z :=
  if i <? 0 then Z.max 0 (i + n) else Z.min i n.

Definition py_slice {A : Type} (l : list A) (start stop : Z) : list A :=
  let n := Z.of_nat (length l) in
  let lo := slice_bound n start in
  let hi := slice_bound n stop in
  take (Z.to_nat (hi - lo)) (drop (Z.to_nat lo) l).

(** [l[start:]] *)
Definition py_slice_from {A : Type} (l : list A) (start : Z) : list A :=
  drop (Z.to_nat (slice_bound (Z.of_nat (length l)) start)) l.

End Py.

Import Py.

(** ** The converter: [graph_converter_pl.py] *)

Module Converter.

(** One row of the normalised tracking data frame. *)
Record Row : Type := mkRow {
  col_game_id : string;
  col_period_id : Z;
  col_frame_id : Z;
  col_timestamp : Q;
  col_ball_state : string;
  col_team_id : string;
  col_ball_owning_team_id : string;
  col_position_name : string;
  col_id : Val;
  col_x : Q; col_y : Q; col_z : Q;
  col_vx : Q; col_vy : Q; col_vz : Q; col_v : Q;
  col_ax : Q; col_ay : Q; col_az : Q; col_a : Q;
  col_label : Val;
  col_graph_id : Val
}.

(** [pl.col(name)] evaluated at a row; [None] for a column the frame does
    not have. *)
Definition get_col (name : string) (r : Row) : option Val :=
  if bool_decide (name = "game_id") then Some (VStr (col_game_id r))
  else if bool_decide (name = "period_id") then Some (VNum (inject_Z (col_period_id r)))
  else if bool_decide (name = "frame_id") then Some (VNum (inject_Z (col_frame_id r)))
  else if bool_decide (name = "timestamp") then Some (VNum (col_timestamp r))
  else if bool_decide (name = "ball_state") then Some (VStr (col_ball_state r))
  else if bool_decide (name = "team_id") then Some (VStr (col_team_id r))
  else if bool_decide (name = "ball_owning_team_id") then Some (VStr (col_ball_owning_team_id r))
  else if bool_decide (name = "position_name") then Some (VStr (col_position_name r))
  else if bool_decide (name = "id") then Some (col_id r)
  else if bool_decide (name = "x") then Some (VNum (col_x r))
  else if bool_decide (name = "y") then Some (VNum (col_y r))
  else if bool_decide (name = "z") then Some (VNum (col_z r))
  else if bool_decide (name = "vx") then Some (VNum (col_vx r))
  else if bool_decide (name = "vy") then Some (VNum (col_vy r))
  else if bool_decide (name = "vz") then Some (VNum (col_vz r))
  else if bool_decide (name = "v") then Some (VNum (col_v r))
  else if bool_decide (name = "ax") then Some (VNum (col_ax r))
  else if bool_decide (name = "ay") then Some (VNum (col_ay r))
  else if bool_decide (name = "az") then Some (VNum (col_az r))
  else if bool_decide (name = "a") then Some (VNum (col_a r))
  else if bool_decide (name = "label") then Some (col_label r)
  else if bool_decide (name = "graph_id") then Some (col_graph_id r)
  else None.

Definition set_v (r : Row) (q : Q) : Row :=
  mkRow (col_game_id r) (col_period_id r) (col_frame_id r) (col_timestamp r)
        (col_ball_state r) (col_team_id r) (col_ball_owning_team_id r)
        (col_position_name r) (col_id r)
        (col_x r) (col_y r) (col_z r) (col_vx r) (col_vy r) (col_vz r) q
        (col_ax r) (col_ay r) (col_az r) (col_a r)
        (col_label r) (col_graph_id r).

Definition set_a (r : Row) (q : Q) : Row :=
  mkRow (col_game_id r) (col_period_id r) (col_frame_id r) (col_timestamp r)
        (col_ball_state r) (col_team_id r) (col_ball_owning_team_id r)
        (col_position_name r) (col_id r)
        (col_x r) (col_y r) (col_z r) (col_vx r) (col_vy r) (col_vz r) (col_v r)
        (col_ax r) (col_ay r) (col_az r) q
        (col_label r) (col_graph_id r).

(** The fields of [GraphSettingsPolars] that the converter reads. The class
    itself is declared outside the modelled files. *)
Record Settings : Type := mkSettings {
  _identifier_column : string;
  ball_id : string;
  goalkeeper_id : string;
  max_player_speed : Q;
  max_ball_speed : Q;
  max_player_acceleration : Q;
  max_ball_acceleration : Q;
  ball_carrier_treshold : Q
}.

(** *** [_apply_filters] *)

(** The [when/then/when/then/otherwise] expression of the first
    [with_columns], at one row whose identifier cell is [ident]. *)
Definition filter_v (s : Settings) (ident : Val) (r : Row) : Q :=
  if Val_eqb ident (VStr (ball_id s)) && Qgtb (col_v r) (max_ball_speed s)
  then max_ball_speed s
  else if negb (Val_eqb ident (VStr (ball_id s))) && Qgtb (col_v r) (max_player_speed s)
  then max_player_speed s
  else col_v r.

Definition filter_a (s : Settings) (ident : Val) (r : Row) : Q :=
  if Val_eqb ident (VStr (ball_id s)) && Qgtb (col_a r) (max_ball_acceleration s)
  then max_ball_acceleration s
  else if negb (Val_eqb ident (VStr (ball_id s))) && Qgtb (col_a r) (max_player_acceleration s)
  then max_player_acceleration s
  else col_a r.

Definition with_v (s : Settings) (r : Row) : option Row :=
  ident ← get_col (_identifier_column s) r;
  Some (set_v r (filter_v s ident r)).

Definition with_a (s : Settings) (r : Row) : option Row :=
  ident ← get_col (_identifier_column s) r;
  Some (set_a r (filter_a s ident r)).

(** What the two chained [with_columns] do to one row. *)
Definition filter_row (s : Settings) (r : Row) : option Row :=
  r1 ← with_v s r; with_a s r1.

Definition _apply_filters (s : Settings) (dataset : list Row) : result (list Row) :=
  df1 ← of_option ColumnNotFoundError (mapM (with_v s) dataset);
  of_option ColumnNotFoundError (mapM (with_a s) df1).

(** The class bounds a row is held to. *)
Definition is_ball (s : Settings) (r : Row) : bool :=
  match get_col (_identifier_column s) r with
  | Some ident => Val_eqb ident (VStr (ball_id s))
  | None => false
  end.

Definition max_speed (s : Settings) (r : Row) : Q :=
  if is_ball s r then max_ball_speed s else max_player_speed s.

Definition max_accel (s : Settings) (r : Row) : Q :=
  if is_ball s r then max_ball_acceleration s else max_player_acceleration s.

Definition known_column (name : string) : Prop :=
  forall r, is_Some (get_col name r).

(** *** [_apply_padding] *)

Definition GroupKey : Type := string * Z * Z * string * string.
Definition FrameKey : Type := string * Z * Z.

(** [group_by_columns] *)
Definition group_key (r : Row) : GroupKey :=
  (col_game_id r, col_period_id r, col_frame_id r, col_team_id r,
   col_ball_owning_team_id r).

Definition frame_key (r : Row) : FrameKey :=
  (col_game_id r, col_period_id r, col_frame_id r).

Definition key_team (k : GroupKey) : string := snd (fst k).
Definition key_owner (k : GroupKey) : string := snd k.

(** [df.group_by(key)]: one entry per distinct key, holding the rows of the
    group in frame order. Groups are listed in order of first appearance
    (polars promises that order only under [maintain_order=True]). *)
Definition group_by {K : Type} `{EqDecision K} (key : Row -> K) (df : list Row)
  : list (K * list Row) :=
  map (fun k => (k, filter (fun r => key r = k) df)) (unique (map key df)).

(** A row of [counts]: the group key, [pl.len()], and the group's first row,
    from which [pl.first(col)] takes every column of [keep_columns]. *)
Record CountRow : Type := mkCountRow {
  cnt_key : GroupKey;
  cnt_count : Z;
  cnt_first : Row
}.

Definition counts (df : list Row) : list CountRow :=
  flat_map (fun g : GroupKey * list Row =>
              match snd g with
              | [] => []
              | r :: _ => [mkCountRow (fst g) (Z.of_nat (length (snd g))) r]
              end)
           (group_by group_key df).

Definition target_length (k : GroupKey) : Z :=
  if bool_decide (key_team k = "ball") then 1
  else if bool_decide (key_team k = key_owner k) then 11
  else 11.

Definition repeats (c : CountRow) : Z := target_length (cnt_key c) - cnt_count c.

Definition groups_to_pad (df : list Row) : list CountRow :=
  filter (fun c => cnt_count c < target_length (cnt_key c)) (counts df).

(** [schema['id'] == pl.String]; every other column of [empty_columns] is a
    float column. The dtype of a column is that of its cells. *)
Definition id_is_string (df : list Row) : bool :=
  match df with
  | r :: _ => match col_id r with VStr _ => true | VNum _ => false end
  | [] => false
  end.

(** One synthetic row: [keep_columns] and [group_by_columns] from the
    [counts] row, [empty_columns] set to [0.0], or to ["None"] for a string
    column. *)
Definition padding_row (id_str : bool) (c : CountRow) : Row :=
  let '(game, period, frame, team, owner) := cnt_key c in
  let base := cnt_first c in
  mkRow game period frame (col_timestamp base) (col_ball_state base)
        team owner (col_position_name base)
        (if id_str then VStr "None" else VNum 0)
        0 0 0 0 0 0 0 0 0 0 0
        (col_label base) (col_graph_id base).

Definition padding_df (df : list Row) : list Row :=
  flat_map (fun c => replicate (Z.to_nat (repeats c)) (padding_row (id_is_string df) c))
           (groups_to_pad df).

(** [result = pl.concat([df, padding_df])] *)
Definition padded (df : list Row) : list Row := df ++ padding_df df.

Definition count_rows (P : Row -> bool) (rows : list Row) : nat :=
  length (filter (fun r => P r = true) rows).

Definition has_ball (rows : list Row) : bool :=
  bool_decide (count_rows (fun r => bool_decide (col_team_id r = "ball")) rows = 1%nat).

Definition has_owning_team (rows : list Row) : bool :=
  bool_decide (count_rows (fun r => bool_decide (col_team_id r = col_ball_owning_team_id r))
                          rows = 11%nat).

Definition has_other_team (rows : list Row) : bool :=
  bool_decide
    (count_rows
       (fun r => negb (bool_decide (col_team_id r = "ball"))
                 && negb (bool_decide (col_team_id r = col_ball_owning_team_id r)))
       rows = 11%nat).

(** The structural completeness of one frame's rows. *)
Definition frame_complete (rows : list Row) : bool :=
  has_ball rows && has_owning_team rows && has_other_team rows.

(** The keys of the frames that pass the completeness filter. *)
Definition frame_completeness (result : list Row) : list FrameKey :=
  map fst (filter (fun g : FrameKey * list Row => frame_complete (snd g) = true)
                  (group_by frame_key result)).

(** The [warnings.warn] of [_apply_padding], with the numbers it prints. *)
Record DropWarning : Type := mkDropWarning {
  dropped_frames : Z;
  total_frames : Z;
  dropped_pct : Q
}.

(** The returned frame (the inner join keeps the rows of the complete
    frames, taken here in the order of [result], and appends the three
    completeness flags, all true, to every row) and the warning, if one was
    issued. *)
Record Padded : Type := mkPadded {
  pad_rows : list Row;
  pad_warning : option DropWarning
}.

Definition _apply_padding (df : list Row) : Padded :=
  if bool_decide (length (groups_to_pad df) = 0%nat) then mkPadded df None
  else
    let result := padded df in
    let total := Z.of_nat (length (unique (map frame_key result))) in
    let complete := frame_completeness result in
    let dropped := total - Z.of_nat (length complete) in
    mkPadded
      (filter (fun r => frame_key r ∈ complete) result)
      (if 0 <? dropped
       then Some (mkDropWarning dropped total
                    ((inject_Z dropped / inject_Z total) * 100)%Q)
       else None).

(** *** [_sport_specific_checks] *)

(** The attributes of the converter that the checks read, as the caller
    passed them. *)
Record Config : Type := mkConfig {
  label_col : PyVal;
  graph_id_col : PyVal;
  chunk_size : PyVal;
  dataset_columns : list string;
  prediction : bool;
  ball_carrier_threshold : PyVal;
  non_potential_receiver_node_value : PyVal
}.

(** [name in self.dataset.columns] *)
Definition in_columns (name : PyVal) (columns : list string) : bool :=
  match name with
  | PStr s => bool_decide (s ∈ columns)
  | _ => false
  end.

Definition _sport_specific_checks (c : Config) : result unit :=
  if negb (isinstance_str (label_col c)) then
    Raise (Exception "'label_col' should be of type string (str)")
  else if negb (isinstance_str (graph_id_col c)) then
    Raise (Exception "'graph_id_col' should be of type string (str)")
  else if negb (isinstance_int (chunk_size c)) then
    Raise (Exception "chunk_size should be of type integer (int)")
  else if negb (in_columns (label_col c) (dataset_columns c)) && negb (prediction c) then
    Raise (Exception "Please specify a 'label_col' and add that column to your 'dataset' or set 'prediction=True' if you want to use the converted dataset to make predictions on.")
  else if negb (in_columns (graph_id_col c) (dataset_columns c)) then
    Raise (Exception "Please specify a 'graph_id_col' and add that column to your 'dataset' ...")
  else if truthy (ball_carrier_threshold c)
          && negb (isinstance_float (ball_carrier_threshold c)) then
    Raise (Exception "'ball_carrier_threshold' should be of type float")
  else if truthy (non_potential_receiver_node_value c)
          && negb (isinstance_float (non_potential_receiver_node_value c)) then
    Raise (Exception "'non_potential_receiver_node_value' should be of type float")
  else Ok tt.

(** *** [__compute], [_convert] and [to_graph_frames] *)

(** What [__compute] returns for one frame group. *)
Record GraphRecord : Type := mkGraphRecord {
  rec_e : list (list Q);
  rec_x : list (list Q);
  rec_a : list (list Q);
  e_shape_0 : nat; e_shape_1 : nat;
  x_shape_0 : nat; x_shape_1 : nat;
  a_shape_0 : nat; a_shape_1 : nat;
  rec_graph_id : Val;
  rec_label : Val
}.

(** [np.all(col == col[0])] *)
Definition all_equal_first (col : list Val) : result bool :=
  match col with
  | [] => Raise IndexError
  | first :: _ => Ok (forallb (fun v => Val_eqb v first) col)
  end.

Section Features.

(** The feature functions and array helpers live in modules of the
    repository that are not part of the modelled files; the converter is
    parametric in them. [NDArray] is a two-dimensional numpy array. *)
Variable NDArray : Type.
Variable Sparse : Type.
Variable shape : NDArray -> nat * nat.
Variable tolist : NDArray -> list (list Q).
Variable get_ball_carrier_idx :
  list Q -> list Q -> list Q -> list string -> list string -> string -> Q -> option nat.
Variable compute_adjacency_matrix_pl :
  list string -> list string -> Settings -> option nat -> NDArray.
Variable compute_edge_features_pl :
  NDArray -> list (Q * Q * Q) -> list (Q * Q) -> list Q -> list (Q * Q) ->
  list string -> Settings -> NDArray.
Variable compute_node_features_pl :
  list Q -> list Q -> list Q -> list (Q * Q) -> list string -> list string ->
  list Z -> Settings -> NDArray.
Variable flatten_to_reshaped_array : list (list Q) -> nat -> nat -> NDArray.
Variable make_sparse : NDArray -> Sparse.

(** The state of the converter that [__compute] reads: the compiled
    settings, the two configured column names and the prediction flag. *)
Record Converter : Type := mkConverter {
  settings : Settings;
  cv_graph_id_col : string;
  cv_label_col : string;
  cv_prediction : bool;
  cv_chunk_size : Z
}.

(** [d[col]] for a column of [__exprs_variables]. *)
Definition column (name : string) (group : list Row) : result (list Val) :=
  of_option ColumnNotFoundError (mapM (get_col name) group).

Definition __compute (self : Converter) (group : list Row) : result GraphRecord :=
  graph_ids ← column (cv_graph_id_col self) group;
  labels ← column (cv_label_col self) group;
  same_id ← all_equal_first graph_ids;
  if negb same_id then
    Raise (Exception "GraphId selection contains multiple different values. Make sure each graph_id is unique by at least game_id and frame_id...")
  else
    same_label ← (if cv_prediction self then Ok true else all_equal_first labels);
    if negb (cv_prediction self) && negb same_label then
      Raise (Exception "Label selection contains multiple different values for a single selection (group by) of game_id and frame_id, make sure this is not the case. Each group can only have 1 label.")
    else
      let s := settings self in
      let xs := map col_x group in
      let ys := map col_y group in
      let zs := map col_z group in
      let team := map col_team_id group in
      let possession_team := map col_ball_owning_team_id group in
      let velocity := map (fun r => (col_vx r, col_vy r)) group in
      let ball_carrier_idx :=
        get_ball_carrier_idx xs ys zs team possession_team (ball_id s)
                             (ball_carrier_treshold s) in
      let adjacency_matrix :=
        compute_adjacency_matrix_pl team possession_team s ball_carrier_idx in
      let edge_features :=
        compute_edge_features_pl adjacency_matrix
          (map (fun r => (col_x r, col_y r, col_z r)) group)
          (map (fun r => (col_x r, col_y r)) group)
          (map col_v group) velocity team s in
      let node_features :=
        compute_node_features_pl xs ys (map col_v group) velocity team possession_team
          (map (fun r => if bool_decide (col_position_name r = goalkeeper_id s)
                         then 1 else 0) group)
          s in
      graph_id ← of_option IndexError (head graph_ids);
      label ← of_option IndexError (head labels);
      Ok (mkGraphRecord
            (tolist edge_features) (tolist node_features) (tolist adjacency_matrix)
            (fst (shape edge_features)) (snd (shape edge_features))
            (fst (shape node_features)) (snd (shape node_features))
            (fst (shape adjacency_matrix)) (snd (shape adjacency_matrix))
            graph_id label).

(** [_convert]: one record per [(game_id, frame_id)] group, in order of
    first appearance; the first group that raises aborts the batch. *)
Definition _convert (self : Converter) (dataset : list Row) : result (list GraphRecord) :=
  mapM (fun g : (string * Z) * list Row => __compute self (snd g))
       (group_by (fun r => (col_game_id r, col_frame_id r)) dataset).

(** [range(0, height, n_rows)] and [df.slice(offset, n_rows)], as
    [DataFrame.iter_slices] uses them. *)
Definition iter_slices {A : Type} (n_rows : Z) (df : list A) : result (list (list A)) :=
  if n_rows =? 0 then Raise ValueError
  else if n_rows <? 0 then Ok []
  else
    let n := Z.to_nat n_rows in
    Ok (map (fun k => take n (drop (k * n) df))
            (seq 0 (Nat.div (length df + n - 1) n))).

Record GraphDict : Type := mkGraphDict {
  gd_a : Sparse;
  gd_x : NDArray;
  gd_e : NDArray;
  gd_y : list Val;
  gd_id : Val
}.

(** The dictionary built for row [i] of a chunk. *)
Definition graph_dict (r : GraphRecord) : GraphDict :=
  mkGraphDict
    (make_sparse (flatten_to_reshaped_array (rec_a r) (a_shape_0 r) (a_shape_1 r)))
    (flatten_to_reshaped_array (rec_x r) (x_shape_0 r) (x_shape_1 r))
    (flatten_to_reshaped_array (rec_e r) (e_shape_0 r) (e_shape_1 r))
    [rec_label r]
    (rec_graph_id r).

(** The function [__convert_to_graph_data_list] that [to_graph_frames]
    defines locally: every chunk is turned into its list of dictionaries
    and appended to [graph_list]. *)
Definition convert_to_graph_data_list (self : Converter) (df : list GraphRecord)
  : result (list GraphDict) :=
  chunks ← iter_slices (cv_chunk_size self) df;
  Ok (foldl (fun graph_list chunk => graph_list ++ map graph_dict chunk) [] chunks).

(** [to_graph_frames]. The helper above is bound to a local name of the
    method, but line 411 looks it up as an attribute of the instance,
    [self.__convert_to_graph_data_list(graph_df)]; the class defines no
    such attribute, so the lookup raises [AttributeError] once [_convert]
    has returned. *)
Definition to_graph_frames (self : Converter) (dataset : list Row)
  : result (list GraphDict) :=
  graph_df ← _convert self dataset;
  Raise AttributeError.

End Features.

(** *** Vocabulary of the properties *)

(** The identifier cell of a row (an empty string when the configured
    column does not exist). *)
Definition ident (s : Settings) (r : Row) : Val :=
  default (VStr "") (get_col (_identifier_column s) r).

(** The row [_apply_filters] puts in the place of [r]. *)
Definition clamped (s : Settings) (r : Row) : Row :=
  let r1 := set_v r (filter_v s (ident s r) r) in
  set_a r1 (filter_a s (ident s r1) r1).

Definition set_chunk_size (c : Config) (v : PyVal) : Config :=
  mkConfig (label_col c) (graph_id_col c) v (dataset_columns c) (prediction c)
           (ball_carrier_threshold c) (non_potential_receiver_node_value c).

(** A chunk size that is a positive integer. *)
Definition positive_integer (v : PyVal) : bool :=
  match v with
  | PInt z => 0 <? z
  | PBool b => b
  | _ => false
  end.

(** Two cells of a column that differ. *)
Definition two_distinct (col : list Val) : Prop :=
  exists a b, a ∈ col /\ b ∈ col /\ Val_eqb a b = false.

(** The columns a synthetic row copies, and those it blanks. *)
Definition keep_columns (r : Row) : Q * string * string * Val * Val :=
  (col_timestamp r, col_ball_state r, col_position_name r, col_label r, col_graph_id r).

Definition motion_columns (r : Row) : list Q :=
  [col_x r; col_y r; col_z r; col_vx r; col_vy r; col_vz r; col_v r;
   col_ax r; col_ay r; col_az r; col_a r].

(** The rows of [df] in the group [k]. *)
Definition group_rows (df : list Row) (k : GroupKey) : list Row :=
  filter (fun r => group_key r = k) df.

(** The row of [counts] for the group [k], if the group has rows. *)
Definition count_row (df : list Row) (k : GroupKey) : list CountRow :=
  match group_rows df k with
  | [] => []
  | r :: _ => [mkCountRow k (Z.of_nat (length (group_rows df k))) r]
  end.

(** The rows of [padding_df] for the groups [cs]. *)
Definition synthetic_rows (b : bool) (cs : list CountRow) : list Row :=
  flat_map (fun c => replicate (Z.to_nat (repeats c)) (padding_row b c)) cs.

(** The frame a group belongs to. *)
Definition key_frame (k : GroupKey) : FrameKey :=
  (fst (fst (fst (fst k))), snd (fst (fst (fst k))), snd (fst (fst k))).

(** The synthetic rows of the group [k]. *)
Definition synthetic (df : list Row) (k : GroupKey) : list Row :=
  filter (fun r => group_key r = k) (padding_df df).

(** *** The rest of the converter *)

(** The columns of the tracking frame: the names [get_col] knows. *)
Definition row_columns : list string :=
  ["game_id"; "period_id"; "frame_id"; "timestamp"; "ball_state"; "team_id";
   "ball_owning_team_id"; "position_name"; "id"; "x"; "y"; "z"; "vx"; "vy"; "vz";
   "v"; "ax"; "ay"; "az"; "a"; "label"; "graph_id"].

(** The key [_convert] groups by. *)
Definition game_frame (r : Row) : string * Z := (col_game_id r, col_frame_id r).

(** The twenty columns [_apply_filters] does not write: all but [v] and
    [a]. *)
Definition other_columns (r : Row)
  : GroupKey * (Q * string * string * Val * Val) * Val * list Q :=
  (group_key r, keep_columns r, col_id r,
   [col_x r; col_y r; col_z r; col_vx r; col_vy r; col_vz r;
    col_ax r; col_ay r; col_az r]).

(** [__post_init__], from the checks on. [_apply_settings] stands for the
    outcome of the call of that name, which builds the settings object of a
    class defined elsewhere. What is left behind is the settings and the
    data set, with the warning of the padding step if it gave one. *)
Definition __post_init__ (c : Config) (_apply_settings : result Settings)
           (pad : bool) (dataset : list Row) : result (Settings * Padded) :=
  _ ← _sport_specific_checks c;
  settings ← _apply_settings;
  dataset ← _apply_filters settings dataset;
  if pad then Ok (settings, _apply_padding dataset)
  else Ok (settings, mkPadded dataset None).

(** [s.endswith(suffix)] *)
Definition endswith (s suffix : string) : bool :=
  bool_decide (String.list_ascii_of_string suffix `suffix_of`
               String.list_ascii_of_string s).

Section Outputs.

Variable NDArray : Type.
Variable Sparse : Type.
Variable shape : NDArray -> nat * nat.
Variable tolist : NDArray -> list (list Q).
Variable get_ball_carrier_idx :
  list Q -> list Q -> list Q -> list string -> list string -> string -> Q -> option nat.
Variable compute_adjacency_matrix_pl :
  list string -> list string -> Settings -> option nat -> NDArray.
Variable compute_edge_features_pl :
  NDArray -> list (Q * Q * Q) -> list (Q * Q) -> list Q -> list (Q * Q) ->
  list string -> Settings -> NDArray.
Variable compute_node_features_pl :
  list Q -> list Q -> list Q -> list (Q * Q) -> list string -> list string ->
  list Z -> Settings -> NDArray.

(** spektral's [Graph(x=, a=, e=, y=, id=)], and [Path(file_path).parent]. *)
Variable SpektralGraph : Type.
Variable Graph : NDArray -> Sparse -> NDArray -> list Val -> Val -> SpektralGraph.
Variable parent : string -> string.

(** [self.graph_frames] as a condition: [None] and the empty list are
    false. *)
Definition frames_cached (graph_frames : option (list (GraphDict NDArray Sparse)))
  : bool :=
  match graph_frames with
  | Some (_ :: _) => true
  | _ => false
  end.

(** [if not self.graph_frames: self.to_graph_frames()], and the value of
    [self.graph_frames] after it: [to_graph_frames] stores what it
    returns. *)
Definition ensure_graph_frames (self : Converter) (dataset : list Row)
           (graph_frames : option (list (GraphDict NDArray Sparse)))
  : result (list (GraphDict NDArray Sparse)) :=
  if negb (frames_cached graph_frames) then
    to_graph_frames NDArray Sparse shape tolist get_ball_carrier_idx
                    compute_adjacency_matrix_pl compute_edge_features_pl
                    compute_node_features_pl self dataset
  else Ok (default [] graph_frames).

Definition to_spektral_graphs (self : Converter) (dataset : list Row)
           (graph_frames : option (list (GraphDict NDArray Sparse)))
  : result (list SpektralGraph) :=
  frames ← ensure_graph_frames self dataset graph_frames;
  Ok (map (fun d => Graph (gd_x _ _ d) (gd_a _ _ d) (gd_e _ _ d)
                          (gd_y _ _ d) (gd_id _ _ d))
          frames).

(** What [to_pickle] does to the file system: [directories.mkdir(parents=True,
    exist_ok=True)], then the dump of the frames into the file. *)
Inductive FsAction : Type :=
  | Mkdir (directories : string)
  | Dump (file_path : string) (graph_frames : list (GraphDict NDArray Sparse)).

Definition to_pickle (self : Converter) (dataset : list Row)
           (graph_frames : option (list (GraphDict NDArray Sparse)))
           (file_path : string) : result (list FsAction) :=
  if negb (endswith file_path "pickle.gz") then Raise ValueError
  else
    frames ← ensure_graph_frames self dataset graph_frames;
    Ok [Mkdir (parent file_path); Dump file_path frames].

End Outputs.


End Converter.

(** ** The dataset: [custom_spektral_dataset.py] *)

Module Dataset.

(** [np.where(mask)[0]] for the mask [P] over [l]: the positions that
    satisfy [P], ascending. *)
Definition where_ {A : Type} (P : A -> bool) (l : list A) : list nat :=
  filter (fun i => from_option P false (l !! i) = true) (seq 0 (length l)).

Inductive Warning : Type :=
  | NoGraphIdsWarning.

Section Split.

(** Graph ids, with the order [sorted] compares them by. *)
Context {Id : Type} `{EqDecision Id}.
Variable Id_leb : Id -> Id -> bool.

(** A graph, and [g.get("id") if hasattr(g, "id") else None]. *)
Context {Graph : Type}.
Variable graph_id : Graph -> option Id.

(** numpy's random generators. [np.random.seed] and [np.random.shuffle]
    act on the process-wide generator, whose state is threaded through the
    split; [np.random.RandomState(seed).permutation(n)] builds a generator
    of its own and depends on nothing but [seed] and [n]. *)
Context {RngState : Type}.
Variable np_random_seed : Z -> RngState.
Variable np_random_shuffle :
  RngState -> list (option Id) -> list (option Id) * RngState.
Variable RandomState_permutation : Z -> nat -> list nat.

(** The subsets handed back: train, test and, for a three-way split,
    validation. *)
Definition Subsets : Type := list Graph * list Graph * option (list Graph).

Record Outcome : Type := mkOutcome {
  returned : result Subsets;
  warned : list Warning;
  rng_after : RngState
}.

(** [self[idxs]]: the graphs at the given positions, in that order. *)
Definition getitem (graphs : list Graph) (idxs : list nat) : result (list Graph) :=
  of_option IndexError (mapM (fun i => graphs !! i) idxs).

(** [sorted]: insertion by [<=], with [None] before every id. *)
Definition opt_leb (a b : option Id) : bool :=
  match a, b with
  | None, _ => true
  | Some _, None => false
  | Some x, Some y => Id_leb x y
  end.

Fixpoint insert_sorted (a : option Id) (l : list (option Id)) : list (option Id) :=
  match l with
  | [] => [a]
  | b :: l' => if opt_leb a b then a :: l else b :: insert_sorted a l'
  end.

Definition sorted (l : list (option Id)) : list (option Id) :=
  foldr insert_sorted [] l.

(** [random_seed] as a condition: [None], [False] and [0] are false;
    [False] and [True] are the integers 0 and 1. *)
Definition seed_truthy (random_seed : option Z) : option Z :=
  match random_seed with
  | Some z => if z =? 0 then None else Some z
  | None => None
  end.

(** [int(pct * dataset_length)] *)
Definition num_of (pct : Q) (dataset_length : nat) : Z :=
  py_int (pct * inject_Z (Z.of_nat dataset_length))%Q.

(** The branch [if not by_graph_id]. *)
Definition split_plain (graphs : list Graph) (random_seed : option Z)
           (num_train num_test num_validation : Z) : result Subsets :=
  let dataset_length := length graphs in
  let idxs :=
    match seed_truthy random_seed with
    | Some seed => RandomState_permutation seed dataset_length
    | None => seq 0 dataset_length
    end in
  if 0 <? num_validation then
    let train_idxs := py_slice idxs 0 num_train in
    let test_idxs := py_slice idxs num_train (num_train + num_test) in
    let validation_idxs :=
      py_slice idxs (num_train + num_test) (num_train + num_test + num_validation) in
    train ← getitem graphs train_idxs;
    test ← getitem graphs test_idxs;
    validation ← getitem graphs validation_idxs;
    Ok (train, test, Some validation)
  else
    let train_idxs := py_slice idxs 0 num_train in
    let test_idxs := py_slice_from idxs num_train in
    train ← getitem graphs train_idxs;
    test ← getitem graphs test_idxs;
    Ok (train, test, None).

(** One [while len(idxs) < num: ...] loop of the graph-id branch. [todo]
    is [unique_graph_ids_list[i:]]; reading past its end is the
    [IndexError] of [unique_graph_ids_list[i]]. Each round is
    [__handle_graph_id(i)] followed by [extend] and [i += 1]. *)
Fixpoint fill (graph_ids : list Id) (num : Z) (todo : list (option Id))
         (unique_graph_ids : list (option Id)) (idxs : list nat)
  : result (list nat * list (option Id) * list (option Id)) :=
  if Z.of_nat (length idxs) <? num then
    match todo with
    | [] => Raise IndexError
    | graph_id :: todo' =>
        let graph_idxs :=
          where_ (fun g => bool_decide (Some g = graph_id)) graph_ids in
        fill graph_ids num todo'
             (filter (fun u => u <> graph_id) unique_graph_ids)
             (idxs ++ graph_idxs)
    end
  else Ok (idxs, todo, unique_graph_ids).

(** The branch [else:] of [if not by_graph_id]. [g.get("id")[0]] has
    nothing to index for a graph without id, and raises. *)
Definition split_by_graph_id (graphs : list Graph) (random_seed : option Z)
           (unique_graph_ids : list (option Id))
           (num_test num_validation : Z) (rng : RngState)
  : result (list nat * list nat * list nat) * RngState :=
  match mapM (fun g => of_option IndexError (graph_id g)) graphs with
  | Raise e => (Raise e, rng)
  | Ok graph_ids =>
      let rng1 :=
        match seed_truthy random_seed with
        | Some seed => np_random_seed seed
        | None => rng
        end in
      let (unique_graph_ids_list, rng2) :=
        np_random_shuffle rng1 (sorted unique_graph_ids) in
      (st1 ← (if 0 <? num_validation
               then fill graph_ids num_validation unique_graph_ids_list
                         unique_graph_ids []
               else Ok ([], unique_graph_ids_list, unique_graph_ids));
       let '(validation_idxs, todo, remaining) := st1 in
       st2 ← fill graph_ids num_test todo remaining [];
       let '(test_idxs, _, remaining') := st2 in
       let train_idxs :=
         where_ (fun g => bool_decide (Some g ∈ remaining')) graph_ids in
       Ok (train_idxs, test_idxs, validation_idxs),
       rng2)
  end.

Definition split_test_train_validation
           (graphs : list Graph)
           (split_train split_test split_validation : Q)
           (by_graph_id : bool) (random_seed : option Z)
           (rng : RngState) : Outcome :=
  let total := (split_train + split_test + split_validation)%Q in
  if Qeq_bool total 0 then mkOutcome (Raise ZeroDivisionError) [] rng
  else
    let train_pct := (split_train / total)%Q in
    let test_pct := (split_test / total)%Q in
    let validation_pct := (split_validation / total)%Q in
    if by_graph_id && (Qgtb validation_pct train_pct
                       || Qgtb test_pct train_pct
                       || Qgtb validation_pct test_pct)
    then mkOutcome (Raise NotImplementedError) [] rng
    else
      let dataset_length := length graphs in
      let num_train := num_of train_pct dataset_length in
      let num_test :=
        if Qgtb validation_pct 0 then num_of test_pct dataset_length
        else Z.of_nat dataset_length - num_train in
      let num_validation :=
        if Qgtb validation_pct 0
        then Z.of_nat dataset_length - num_train - num_test
        else 0 in
      let unique_graph_ids := unique (map graph_id graphs) in
      let no_ids := bool_decide (unique_graph_ids = [None]) in
      let by_graph_id := if no_ids then false else by_graph_id in
      let warned := if no_ids then [NoGraphIdsWarning] else [] in
      if negb by_graph_id then
        mkOutcome (split_plain graphs random_seed num_train num_test num_validation)
                  warned rng
      else
        let (idxs, rng') :=
          split_by_graph_id graphs random_seed unique_graph_ids
                            num_test num_validation rng in
        mkOutcome
          ('(train_idxs, test_idxs, validation_idxs) ← idxs;
           train ← getitem graphs train_idxs;
           test ← getitem graphs test_idxs;
           match validation_idxs with
           | [] => Ok (train, test, None)
           | _ :: _ =>
               validation ← getitem graphs validation_idxs;
               Ok (train, test, Some validation)
           end)
          warned rng'.

(** [split_test_train] *)
Definition split_test_train (graphs : list Graph) (split_train split_test : Q)
           (by_graph_id : bool) (random_seed : option Z) (rng : RngState) : Outcome :=
  split_test_train_validation graphs split_train split_test 0
                              by_graph_id random_seed rng.

(** *** Vocabulary of the properties *)

(** [subset] holds the graphs found at the positions [idxs], in order. *)
Definition positions (graphs : list Graph) (idxs : list nat) (subset : list Graph) : Prop :=
  Forall2 (fun i g => graphs !! i = Some g) idxs subset.

(** The index order the plain split slices. *)
Definition plain_idxs (random_seed : option Z) (n : nat) : list nat :=
  match seed_truthy random_seed with
  | Some seed => RandomState_permutation seed n
  | None => seq 0 n
  end.

(** The number of graphs a share [p] of [total] comes to: the floor of
    [p / total * n]. *)
Definition share (p total : Q) (n : nat) : nat :=
  Z.to_nat (Qfloor (p / total * inject_Z (Z.of_nat n))).

(** The counts the specification gives the three subsets. *)
Definition n_train (p_train p_test p_val : Q) (n : nat) : nat :=
  share p_train (p_train + p_test + p_val) n.

Definition n_test (p_train p_test p_val : Q) (n : nat) : nat :=
  if Qgtb p_val 0 then share p_test (p_train + p_test + p_val) n
  else (n - n_train p_train p_test p_val n)%nat.

Definition n_validation (p_train p_test p_val : Q) (n : nat) : nat :=
  (n - n_train p_train p_test p_val n - n_test p_train p_test p_val n)%nat.

(** The positions of the graphs that carry one of the ids [taken]. *)
Definition positions_of (graph_ids : list Id) (taken : list (option Id)) : list nat :=
  flat_map (fun u => where_ (fun g => bool_decide (Some g = u)) graph_ids) taken.

End Split.

Arguments mkOutcome {Graph RngState} returned warned rng_after.
Arguments returned {Graph RngState} o.
Arguments warned {Graph RngState} o.
Arguments rng_after {Graph RngState} o.

(** *** The collection *)

(** [x % y] on finite floats, for a divisor that is not zero: the remainder
    has the sign of the divisor. *)
Definition py_mod (x y : Q) : Q := (x - y * inject_Z (Qfloor (x / y)))%Q.

(** [i % self.sample == 0]; the modulo of a float by zero raises. *)
Definition keeps (sample : Q) (i : nat) : result bool :=
  if Qeq_bool sample 0 then Raise ZeroDivisionError
  else Ok (Qeq_bool (py_mod (inject_Z (Z.of_nat i)) sample) 0).

(** [[g for i, g in enumerate(l) if i % self.sample == 0]], with the
    enumeration standing at index [i]. *)
Fixpoint sampled_from {A : Type} (sample : Q) (i : nat) (l : list A) : result (list A) :=
  match l with
  | [] => Ok []
  | g :: l' =>
      keep ← keeps sample i;
      rest ← (sampled_from sample (S i) l' : result (list A));
      Ok (if keep : bool then g :: rest else rest)
  end.

Section Collection.

(** spektral's [Graph]; a [DefaultGraphFrame] with its
    [to_spektral_graph()]; and a dictionary holding the keys [x], [a], [e],
    [y] and [id], as [to_graph_frames] builds them, with the
    [Graph(x=g["x"], ...)] made from it. *)
Context {Graph Frame Dict : Type}.
Variable to_spektral_graph : Frame -> Graph.
Variable graph_of_dict : Dict -> Graph.

(** The lists [__convert] is handed, by the type of their elements; the
    code looks at the first element only, and a list whose first element is
    of none of the three types is [OtherList]. *)
Inductive Data : Type :=
  | GraphList (data : list Graph)
  | FrameList (data : list Frame)
  | DictList (data : list Dict)
  | OtherList.

(** What [__convert] reads of the instance: [self.sample], and [self.data]
    if the instance has such an attribute. *)
Record Self : Type := mkSelf {
  sample : Q;
  self_data : option (list Frame)
}.

Definition __convert (self : Self) (data : Data) : result (list Graph) :=
  match data with
  | GraphList [] | FrameList [] | DictList [] => Raise IndexError
  | GraphList data => sampled_from (sample self) 0 data
  | FrameList _ =>
      data ← of_option AttributeError (self_data self);
      kept ← sampled_from (sample self) 0 data;
      Ok (map to_spektral_graph kept)
  | DictList data =>
      kept ← sampled_from (sample self) 0 data;
      Ok (map graph_of_dict kept)
  | OtherList => Raise NotImplementedError
  end.

(** [read], on [self.graphs]. *)
Definition read (self : Self) (graphs : list Graph) : result (list Graph) :=
  __convert self (GraphList graphs).

(** [add]: the new value of [self.graphs]. *)
Definition add (self : Self) (graphs : list Graph) (other : Data) : result (list Graph) :=
  other ← __convert self other;
  Ok (graphs ++ other).

(** The keyword arguments [__init__] reads. [pickle_folder] holds what the
    files matching [*.pickle.gz] unpickle to, in the order of [glob], and
    [pickle_file] what the file unpickles to; a path that is missing or
    empty is [None]. [graphs] is a list of graphs or an object of another
    type, of which only the truth value matters. *)
Inductive GraphsArg : Type :=
  | NotAList (truth : bool)
  | AList (graphs : list Graph).

Record Kwargs : Type := mkKwargs {
  sample_rate : option Q;
  pickle_folder : option (list Data);
  pickle_file : option Data;
  kw_graphs : option GraphsArg
}.

(** [not self.graphs] *)
Definition no_graphs (graphs : option (list Graph)) : bool :=
  match graphs with
  | Some (_ :: _) => false
  | _ => true
  end.

(** The loop over the files of the folder. *)
Fixpoint load_files (self : Self) (graphs : option (list Graph)) (files : list Data)
  : result (option (list Graph)) :=
  match files with
  | [] => Ok graphs
  | data :: files' =>
      graphs' ← (if no_graphs graphs then __convert self data
                 else add self (default [] graphs) data);
      load_files self (Some graphs') files'
  end.

(** [__init__], up to the call of the constructor of spektral's [Dataset]:
    the sampling step and [self.graphs]. [data_attr] is the attribute
    [data] of the instance, if it has one. *)
Definition __init__ (data_attr : option (list Frame)) (kwargs : Kwargs)
  : result (Self * option (list Graph)) :=
  let sample_rate := default 1%Q (sample_rate kwargs) in
  if Qeq_bool sample_rate 0 then Raise ZeroDivisionError
  else
    let self := mkSelf (1 / sample_rate)%Q data_attr in
    match pickle_folder kwargs with
    | Some files =>
        graphs ← load_files self None files;
        Ok (self, graphs)
    | None =>
        match pickle_file kwargs with
        | Some data =>
            graphs ← __convert self data;
            Ok (self, Some graphs)
        | None =>
            match kw_graphs kwargs with
            | Some (AList (g :: graphs)) => Ok (self, Some (g :: graphs))
            | Some (NotAList true) => Raise NotImplementedError
            | _ => Raise NotImplementedError
            end
        end
    end.

End Collection.

Arguments Data : clear implicits.
Arguments GraphsArg : clear implicits.
Arguments Kwargs : clear implicits.
Arguments OtherList {Graph Frame Dict}.
Arguments mkSelf {Frame} sample self_data.

(** Every [k]-th element of [l], the enumeration standing at index [i]. *)
Fixpoint every {A : Type} (k i : nat) (l : list A) : list A :=
  match l with
  | [] => []
  | g :: l' => if (i mod k =? 0)%nat then g :: every k (S i) l' else every k (S i) l'
  end.


End Dataset.

(** ** Concrete inputs *)

Module Inputs.

Import Converter Dataset.

(** Settings with the default bounds of [DefaultSettings]; the ball is the
    row whose [team_id] is "ball". *)
Definition settings0 : Settings :=
  mkSettings "team_id" "ball" "GK" 12 28 6 13.5 25.

(** A row of team [team] with speed [v] and acceleration [a]. *)
Definition row0 (team : string) (v a : Q) : Row :=
  mkRow "game" 1 10 0 "alive" team "home" "CB" (VStr "p") 0 0 0 0 0 0 v 0 0 0 a
        (VNum 1) (VStr "game").

(** A configuration that is valid but for its chunk size. *)
Definition config0 (chunk : PyVal) : Config :=
  mkConfig (PStr "label") (PStr "graph_id") chunk
           ["game_id"; "frame_id"; "label"; "graph_id"] false
           (PFloat 25) (PFloat 0.1).

(** A converter with labels required (prediction mode off). *)
Definition converter0 : Converter := mkConverter settings0 "graph_id" "label" false 20000.

(** A row of frame 10 carrying the label [label]. *)
Definition labelled (label : Q) : Row :=
  mkRow "game" 1 10 0 "alive" "home" "home" "CB" (VStr "p") 0 0 0 0 0 0 0 0 0 0 0
        (VNum label) (VStr "game").

(** Player [i] of team [team], and the ball, in frame 10. *)
Definition player (team : string) (i : nat) : Row :=
  mkRow "game" 1 10 0 "alive" team "home" "CB" (VNum (inject_Z (Z.of_nat i)))
        1 2 0 0 0 0 3 0 0 0 1 (VNum 1) (VStr "game").

Definition ball : Row :=
  mkRow "game" 1 10 0 "alive" "ball" "home" "ball" (VNum 99)
        1 2 0 0 0 0 3 0 0 0 1 (VNum 1) (VStr "game").

Definition team (name : string) (n : nat) : list Row := map (player name) (seq 0 n).

(** One frame: the ball, nine players of the owning team, eleven of the
    other. *)
Definition short_frame : list Row := ball :: team "home" 9 ++ team "away" 11.

Definition home_key : GroupKey := ("game", 1, 10, "home", "home").

(** A frame in which both teams are complete and the ball is missing. *)
Definition frame_without_ball : list Row := team "home" 11 ++ team "away" 11.

(** The same frame with two players of the owning team missing as well. *)
Definition short_frame_without_ball : list Row := team "home" 9 ++ team "away" 11.

(** The instance of the split used in the examples: ten graphs without ids,
    and a generator whose permutation reverses the order. *)
Definition split10 (p_train p_test p_val : Q) (random_seed : option Z) : Outcome :=
  split_test_train_validation (Id := string) String.leb (fun _ : nat => None)
    (fun _ : Z => tt) (fun (r : unit) l => (l, r))
    (fun _ n => reverse (seq 0 n))
    (seq 100 10) p_train p_test p_val false random_seed tt.

(** A converter in prediction mode whose label column is not a column of
    the frame. *)
Definition predictor : Converter :=
  mkConverter settings0 "graph_id" "my_label" true 20000.

(** A converter in prediction mode that finds its label column. *)
Definition predicting : Converter := mkConverter settings0 "graph_id" "label" true 20000.

(** The same converter as [converter0], cutting the records into chunks of
    one. *)
Definition converter1 : Converter := mkConverter settings0 "graph_id" "label" false 1.

(** Feature functions that return empty arrays. *)
Definition no_carrier (xs ys zs : list Q) (team possession_team : list string)
           (ball_id : string) (threshold : Q) : option nat := None.

Definition no_adjacency (team possession_team : list string) (s : Settings)
           (ball_carrier_idx : option nat) : list (list Q) := [].

Definition no_edges (adjacency : list (list Q)) (p3d : list (Q * Q * Q))
           (p2d : list (Q * Q)) (speed : list Q) (velocity : list (Q * Q))
           (team : list string) (s : Settings) : list (list Q) := [].

Definition no_nodes (xs ys speed : list Q) (velocity : list (Q * Q))
           (team possession_team : list string) (is_gk : list Z) (s : Settings)
  : list (list Q) := [].

(** The record these functions give for a frame of graph id "game" and
    label 1. *)
Definition record0 : GraphRecord :=
  mkGraphRecord [] [] [] 0 0 0 0 0 0 (VStr "game") (VNum 1).

(** The row padding adds to the owning team of [short_frame]. *)
Definition padding_home : Row :=
  mkRow "game" 1 10 0 "alive" "home" "home" "CB" (VNum 0)
        0 0 0 0 0 0 0 0 0 0 0 (VNum 1) (VStr "game").

(** A collection that keeps every second graph, and the keyword arguments
    of a folder of two pickle files read at a sample rate of one half. *)
Definition half : Self (Frame := nat) := mkSelf (inject_Z (Z.of_nat 2)) None.

Definition two_files : Kwargs nat nat nat :=
  mkKwargs (Some 0.5%Q) (Some [GraphList [1; 2; 3]%nat; GraphList [4; 5]%nat]) None None.

Definition two_graphs : Kwargs nat nat nat :=
  mkKwargs None None None (Some (AList [1; 2]%nat)).

(** Four graphs named by their ids, and their split with a generator whose
    shuffle leaves the order alone. *)
Definition named : list string := ["A"; "A"; "B"; "C"].

Definition split_named (p_train p_test p_val : Q) (by_graph_id : bool)
           (random_seed : option Z) : Outcome :=
  split_test_train_validation String.leb (fun g : string => Some g)
    (fun _ : Z => tt) (fun (r : unit) l => (l, r))
    (fun _ n => seq 0 n)
    named p_train p_test p_val by_graph_id random_seed tt.

(** The same split with a generator that counts its calls: its state is a
    number, [seed] sets it, and [shuffle] reverses the list when the number
    is odd and adds one to it. *)
Definition split_counted (p_train p_test p_val : Q) (by_graph_id : bool)
           (random_seed : option Z) (rng : nat) : Outcome :=
  split_test_train_validation String.leb (fun g : string => Some g)
    (fun seed : Z => Z.to_nat seed)
    (fun (r : nat) l => (if Nat.even r then l else reverse l, S r))
    (fun _ n => seq 0 n)
    named p_train p_test p_val by_graph_id random_seed rng.


End Inputs.

(** * Properties *)

(** ** Shared lemmas *)

Module PyFacts.

Lemma mapM_total {A B : Type} (f : A -> option B) (g : A -> B) (l : list A) :
  (forall a, f a = Some (g a)) -> mapM f l = Some (map g l).
Proof.
  intros Hfg. apply mapM_Some_2.
  induction l as [|a l IH]; constructor; auto.
Qed.

Lemma Val_eqb_sym (a b : Val) : Val_eqb a b = Val_eqb b a.
Proof.
  destruct a as [p|s], b as [q|t]; simpl; try reflexivity.
  - apply eq_true_iff_eq. rewrite !Qeq_bool_iff. split; intros E; by symmetry.
  - apply bool_decide_ext. split; congruence.
Qed.

Lemma Val_eqb_trans (a b c : Val) :
  Val_eqb a b = true -> Val_eqb b c = true -> Val_eqb a c = true.
Proof.
  destruct a as [p|s], b as [q|t], c as [r|u]; simpl; try discriminate.
  - rewrite !Qeq_bool_iff. intros E1 E2. by rewrite E1.
  - rewrite !bool_decide_eq_true. congruence.
Qed.

Lemma Qgtb_false (a b : Q) : Qgtb a b = false -> (a <= b)%Q.
Proof.
  unfold Qgtb. intros H. apply negb_false_iff in H. by apply Qle_bool_iff.
Qed.

Lemma Qgtb_true (a b : Q) : Qgtb a b = true -> ~ (a <= b)%Q.
Proof.
  unfold Qgtb. intros H Hle. apply Qle_bool_iff in Hle.
  rewrite Hle in H. discriminate.
Qed.

Lemma elem_of_unique {K : Type} `{EqDecision K} (l : list K) (x : K) :
  x ∈ unique l <-> x ∈ l.
Proof.
  induction l as [|k l IH]; simpl; [reflexivity|].
  rewrite !elem_of_cons, list_elem_of_filter, IH.
  destruct (decide (x = k)); tauto.
Qed.

Lemma NoDup_unique {K : Type} `{EqDecision K} (l : list K) : NoDup (unique l).
Proof.
  induction l as [|k l IH]; simpl; constructor.
  - rewrite list_elem_of_filter. tauto.
  - by apply NoDup_filter.
Qed.

(** Cutting a list into consecutive slices of [n] elements and gluing the
    slices together gives the list back. *)
Lemma concat_slices {A : Type} (n m : nat) (l : list A) :
  (length l <= m * n)%nat ->
  concat (map (fun k => take n (drop (k * n) l)) (seq 0 m)) = l.
Proof.
  revert l. induction m as [|m IH]; intros l Hlen.
  - destruct l; [reflexivity|]. simpl in Hlen. lia.
  - rewrite <- cons_seq, <- fmap_S_seq. simpl. rewrite drop_0.
    transitivity (take n l ++ drop n l); [|apply take_drop].
    f_equal.
    assert (Hd : (length (drop n l) <= m * n)%nat) by (rewrite length_drop; lia).
    etransitivity; [|apply (IH _ Hd)].
    f_equal.
    change (map ?f (S <$> ?l)) with (f <$> (S <$> l)).
    rewrite <- list_fmap_compose. apply list_fmap_ext.
    intros i k _. simpl. rewrite drop_drop. do 2 f_equal.
Qed.

Lemma slices_cover (len n : nat) :
  (0 < n)%nat -> (len <= (len + n - 1) / n * n)%nat.
Proof.
  intros Hn.
  pose proof (Nat.mul_succ_div_gt (len + n - 1) n ltac:(lia)) as H.
  nia.
Qed.

Lemma elem_of_flat_map {A B : Type} (f : A -> list B) (l : list A) (b : B) :
  b ∈ flat_map f l <-> exists a, a ∈ l /\ b ∈ f a.
Proof.
  rewrite list_elem_of_In, in_flat_map.
  split; intros (a & Ha & Hb); exists a; by rewrite ?list_elem_of_In in *.
Qed.

Lemma filter_replicate {A : Type} (P : A -> Prop) `{forall x, Decision (P x)}
      (n : nat) (x : A) :
  filter P (replicate n x) = if decide (P x) then replicate n x else [].
Proof.
  induction n as [|n IH]; simpl; [by destruct (decide (P x))|].
  rewrite filter_cons, IH. by destruct (decide (P x)).
Qed.

Lemma py_int_floor (q : Q) : (0 <= q)%Q -> py_int q = Qfloor q.
Proof.
  destruct q as [n d]. unfold Qle, py_int, Qfloor. simpl. intros Hn.
  apply Z.quot_div_nonneg; lia.
Qed.

Lemma Qfloor_nonneg (q : Q) : (0 <= q)%Q -> 0 <= Qfloor q.
Proof. intros Hq. apply (Qfloor_resp_le 0 q Hq). Qed.

Lemma pct_nonneg (p total : Q) : (0 <= p)%Q -> (0 < total)%Q -> (0 <= p / total)%Q.
Proof. intros Hp Ht. apply Qle_shift_div_l; [done|]. lra. Qed.

Lemma pct_sum_le (p1 p2 p3 : Q) :
  (0 <= p3)%Q -> (0 < p1 + p2 + p3)%Q ->
  (p1 / (p1 + p2 + p3) + p2 / (p1 + p2 + p3) <= 1)%Q.
Proof.
  intros H3 Ht. set (t := (p1 + p2 + p3)%Q) in *.
  assert (E : (p1 / t + p2 / t == (p1 + p2) / t)%Q) by (field; lra).
  rewrite E. apply Qle_shift_div_r; [done|]. unfold t. lra.
Qed.

Lemma inject_nat_nonneg (n : nat) : (0 <= inject_Z (Z.of_nat n))%Q.
Proof. change (inject_Z 0 <= inject_Z (Z.of_nat n))%Q. rewrite <- Zle_Qle. lia. Qed.

Lemma floor_parts_le (a b : Q) (n : nat) :
  (0 <= a)%Q -> (0 <= b)%Q -> (a + b <= 1)%Q ->
  Qfloor (a * inject_Z (Z.of_nat n)) + Qfloor (b * inject_Z (Z.of_nat n)) <= Z.of_nat n.
Proof.
  intros Ha Hb Hab. rewrite Zle_Qle, inject_Z_plus.
  pose proof (Qfloor_le (a * inject_Z (Z.of_nat n))) as H1.
  pose proof (Qfloor_le (b * inject_Z (Z.of_nat n))) as H2.
  pose proof (inject_nat_nonneg n) as Hn.
  nra.
Qed.

Lemma floor_part_le (a : Q) (n : nat) :
  (0 <= a)%Q -> (a <= 1)%Q -> Qfloor (a * inject_Z (Z.of_nat n)) <= Z.of_nat n.
Proof.
  intros Ha Hab. rewrite Zle_Qle.
  pose proof (Qfloor_le (a * inject_Z (Z.of_nat n))) as H1.
  pose proof (inject_nat_nonneg n) as Hn.
  nra.
Qed.
Lemma py_slice_prefix {A : Type} (l : list A) (k : Z) :
  0 <= k <= Z.of_nat (length l) -> py_slice l 0 k = take (Z.to_nat k) l.
Proof.
  intros Hk. unfold py_slice, slice_bound. simpl.
  destruct (Z.ltb_spec k 0); [lia|].
  rewrite Z.min_l, Z.min_l by lia. simpl. by rewrite Z.sub_0_r.
Qed.

Lemma py_slice_middle {A : Type} (l : list A) (a b : Z) :
  0 <= a -> 0 <= b -> a + b <= Z.of_nat (length l) ->
  py_slice l a (a + b) = take (Z.to_nat b) (drop (Z.to_nat a) l).
Proof.
  intros Ha Hb Hab. unfold py_slice, slice_bound.
  destruct (Z.ltb_spec a 0); [lia|]. destruct (Z.ltb_spec (a + b) 0); [lia|].
  rewrite !Z.min_l by lia. do 2 f_equal. lia.
Qed.

Lemma py_slice_suffix {A : Type} (l : list A) (a : Z) :
  0 <= a <= Z.of_nat (length l) -> py_slice_from l a = drop (Z.to_nat a) l.
Proof.
  intros Ha. unfold py_slice_from, slice_bound.
  destruct (Z.ltb_spec a 0); [lia|]. by rewrite Z.min_l by lia.
Qed.

Lemma Qgtb_pos (a : Q) : Qgtb a 0 = true <-> (0 < a)%Q.
Proof.
  unfold Qgtb. rewrite negb_true_iff. split.
  - intros Hle. apply Qnot_le_lt. intros H. apply Qle_bool_iff in H. congruence.
  - intros Hlt. destruct (Qle_bool a 0) eqn:E; [|reflexivity].
    apply Qle_bool_iff in E. exfalso. eapply Qlt_not_le; eauto.
Qed.

Lemma Qgtb_pct (p total : Q) :
  (0 < total)%Q -> Qgtb (p / total) 0 = Qgtb p 0.
Proof.
  intros Ht. apply eq_true_iff_eq. rewrite !Qgtb_pos. split; intros Hp.
  - assert (E : (p == p / total * total)%Q) by (field; lra).
    rewrite E. by apply Qmult_lt_0_compat.
  - apply Qlt_shift_div_l; [done|]. lra.
Qed.

Lemma filter_none {A : Type} (P : A -> Prop) `{forall x, Decision (P x)} (l : list A) :
  (forall x, x ∈ l -> ~ P x) -> filter P l = [].
Proof.
  induction l as [|x l IH]; intros Hno; [done|].
  rewrite filter_cons_False by (apply Hno; by left).
  apply IH. intros y Hy. apply Hno. by right.
Qed.

Lemma mapM_raises {A B : Type} (f : A -> result B) (l : list A) (x : A) :
  x ∈ l -> raises (f x) -> raises (mapM f l).
Proof.
  intros Hx [e He]. induction l as [|y l IH]; [by apply elem_of_nil in Hx|].
  simpl. apply elem_of_cons in Hx as [<-|Hx].
  - rewrite He. by exists e.
  - destruct (f y); simpl; [|by eexists].
    destruct (IH Hx) as [e' ->]. by exists e'.
Qed.

End PyFacts.

(** ** The converter *)

Module ConverterSpec.

Import Converter Inputs PyFacts.

(** *** FrameFilter *)

Section Filters.

Variable s : Settings.

Hypothesis Hcol : known_column (_identifier_column s).

Lemma get_ident (r : Row) : get_col (_identifier_column s) r = Some (ident s r).
Proof. unfold ident. destruct (Hcol r) as [v ->]. reflexivity. Qed.

(** Writing [v] leaves the ball test unchanged (a numeric cell never
    equals the sentinel string). *)
Lemma ident_set_v (r : Row) (q : Q) :
  Val_eqb (ident s (set_v r q)) (VStr (ball_id s))
  = Val_eqb (ident s r) (VStr (ball_id s)).
Proof.
  unfold ident, get_col. simpl.
  repeat (case_bool_decide; [reflexivity|]). reflexivity.
Qed.

Lemma filter_row_clamped (r : Row) : filter_row s r = Some (clamped s r).
Proof.
  unfold filter_row, with_v, with_a, clamped.
  rewrite get_ident. simpl. rewrite get_ident. reflexivity.
Qed.

Lemma apply_filters_map (rows : list Row) :
  _apply_filters s rows = Ok (map (clamped s) rows).
Proof.
  unfold _apply_filters.
  rewrite (mapM_total (with_v s) (fun r => set_v r (filter_v s (ident s r) r))).
  2: { intros r. unfold with_v. by rewrite get_ident. }
  simpl.
  rewrite (mapM_total (with_a s) (fun r => set_a r (filter_a s (ident s r) r))).
  2: { intros r. unfold with_a. by rewrite get_ident. }
  simpl. by rewrite map_map.
Qed.

Lemma is_ball_ident (r : Row) : is_ball s r = Val_eqb (ident s r) (VStr (ball_id s)).
Proof. unfold is_ball. by rewrite get_ident. Qed.

Lemma clamped_v_le (r : Row) : (col_v (clamped s r) <= max_speed s r)%Q.
Proof.
  unfold clamped, max_speed. simpl. rewrite is_ball_ident. unfold filter_v.
  destruct (Val_eqb (ident s r) (VStr (ball_id s))); simpl;
    destruct (Qgtb (col_v r) _) eqn:Hgt; simpl;
    try apply Qle_refl; by apply Qgtb_false.
Qed.

Lemma clamped_a_le (r : Row) : (col_a (clamped s r) <= max_accel s r)%Q.
Proof.
  unfold clamped, max_accel. simpl. rewrite is_ball_ident.
  unfold filter_a. rewrite ident_set_v. simpl.
  destruct (Val_eqb (ident s r) (VStr (ball_id s))); simpl;
    destruct (Qgtb (col_a r) _) eqn:Hgt; simpl;
    try apply Qle_refl; by apply Qgtb_false.
Qed.

Lemma clamped_v_keep (r : Row) :
  (col_v r <= max_speed s r)%Q -> col_v (clamped s r) = col_v r.
Proof.
  unfold clamped, max_speed. simpl. rewrite is_ball_ident. unfold filter_v.
  destruct (Val_eqb (ident s r) (VStr (ball_id s))); simpl; intros Hle;
    destruct (Qgtb (col_v r) _) eqn:Hgt; simpl; try reflexivity;
    by apply Qgtb_true in Hgt.
Qed.

Lemma clamped_a_keep (r : Row) :
  (col_a r <= max_accel s r)%Q -> col_a (clamped s r) = col_a r.
Proof.
  unfold clamped, max_accel. simpl. rewrite is_ball_ident.
  unfold filter_a. rewrite ident_set_v. simpl.
  destruct (Val_eqb (ident s r) (VStr (ball_id s))); simpl; intros Hle;
    destruct (Qgtb (col_a r) _) eqn:Hgt; simpl; try reflexivity;
    by apply Qgtb_true in Hgt.
Qed.

End Filters.



Example apply_filters_example :
  _apply_filters settings0 [row0 "ball" 40 2; row0 "home" 15 3]
  = Ok [row0 "ball" 28 2; row0 "home" 12 3].
Proof. reflexivity. Qed.

(** *** Settings validation *)

Example checks_accept_zero : _sport_specific_checks (config0 (PInt 0)) = Ok tt.
Proof. reflexivity. Qed.

Example checks_accept_negative : _sport_specific_checks (config0 (PInt (-5))) = Ok tt.
Proof. reflexivity. Qed.

Example checks_reject_float :
  _sport_specific_checks (config0 (PFloat 2.5))
  = Raise (Exception "chunk_size should be of type integer (int)").
Proof. reflexivity. Qed.

(** C9, as stated, fails: a chunk size of zero is not a positive integer,
    and the checks accept it. *)
Lemma checks_do_not_reject_nonpositive :
  ~ (forall c : Config,
       positive_integer (chunk_size c) = false -> raises (_sport_specific_checks c)).
Proof.
  intros H. destruct (H (config0 (PInt 0)) eq_refl) as [e He].
  discriminate He.
Qed.

(** C9, amended. The checks fail whenever the chunk size is not of integer
    type, and they never look at the value of an integer chunk size: every
    integer, zero and the negative ones included, is treated like 1. *)
Theorem checks_chunk_size_type_only (c : Config) :
  (isinstance_int (chunk_size c) = false -> raises (_sport_specific_checks c)) /\
  (forall z : Z,
     _sport_specific_checks (set_chunk_size c (PInt z))
     = _sport_specific_checks (set_chunk_size c (PInt 1))).
Proof.
  split.
  - intros Hint. unfold _sport_specific_checks, raises. rewrite Hint. simpl.
    destruct (isinstance_str (label_col c)); simpl; [|eauto].
    destruct (isinstance_str (graph_id_col c)); simpl; eauto.
  - intros z. reflexivity.
Qed.

Lemma checks_chunk_size_type_only_witness :
  raises (_sport_specific_checks (config0 (PFloat 2.5))) /\
  _sport_specific_checks (set_chunk_size (config0 (PFloat 2.5)) (PInt (-5)))
  = _sport_specific_checks (set_chunk_size (config0 (PFloat 2.5)) (PInt 1)).
Proof.
  destruct (checks_chunk_size_type_only (config0 (PFloat 2.5))) as [H1 H2].
  split; [apply H1; reflexivity | apply H2].
Defined.

(** *** FrameGraphAssembler *)

(** A column with two cells that differ is not constant. *)
Lemma all_equal_first_distinct (col : list Val) (a b : Val) :
  a ∈ col -> b ∈ col -> Val_eqb a b = false ->
  all_equal_first col = Ok false.
Proof.
  intros Ha Hb Hab. destruct col as [|first col']; [by apply elem_of_nil in Ha|].
  unfold all_equal_first. f_equal.
  destruct (forallb _ _) eqn:Hall; [|reflexivity].
  rewrite forallb_forall in Hall.
  assert (Hfa : Val_eqb a first = true) by by apply Hall, list_elem_of_In.
  assert (Hfb : Val_eqb b first = true) by by apply Hall, list_elem_of_In.
  rewrite Val_eqb_sym in Hfb.
  by rewrite (Val_eqb_trans _ _ _ Hfa Hfb) in Hab.
Qed.

Lemma all_equal_first_nonempty (col : list Val) (a : Val) :
  a ∈ col -> exists b, all_equal_first col = Ok b.
Proof.
  intros Ha. destruct col; [by apply elem_of_nil in Ha|]. simpl. eauto.
Qed.

Lemma column_length (name : string) (group : list Row) (col : list Val) :
  column name group = Ok col -> length col = length group.
Proof.
  unfold column. destruct (mapM _ _) eqn:E; simpl; [|discriminate].
  intros [= <-]. symmetry. by eapply length_mapM.
Qed.

Section Assembler.

Variable NDArray : Type.
Variable shape : NDArray -> nat * nat.
Variable tolist : NDArray -> list (list Q).
Variable get_ball_carrier_idx :
  list Q -> list Q -> list Q -> list string -> list string -> string -> Q -> option nat.
Variable compute_adjacency_matrix_pl :
  list string -> list string -> Settings -> option nat -> NDArray.
Variable compute_edge_features_pl :
  NDArray -> list (Q * Q * Q) -> list (Q * Q) -> list Q -> list (Q * Q) ->
  list string -> Settings -> NDArray.
Variable compute_node_features_pl :
  list Q -> list Q -> list Q -> list (Q * Q) -> list string -> list string ->
  list Z -> Settings -> NDArray.

(** C1. A frame group whose graph-id column holds two distinct values, or
    whose label column does while prediction mode is off, is not
    assembled: [__compute] raises its [Exception]. *)
Theorem compute_rejects_mixed_group
        (self : Converter) (group : list Row) (graph_ids labels : list Val) :
  column (cv_graph_id_col self) group = Ok graph_ids ->
  column (cv_label_col self) group = Ok labels ->
  two_distinct graph_ids \/ (cv_prediction self = false /\ two_distinct labels) ->
  exists msg,
    __compute NDArray shape tolist get_ball_carrier_idx compute_adjacency_matrix_pl
              compute_edge_features_pl compute_node_features_pl self group
    = Raise (Exception msg).
Proof.
  intros Hg Hl Hmixed. unfold __compute. rewrite Hg, Hl. simpl.
  destruct Hmixed as [(a & b & Ha & Hb & Hab) | [Hpred (a & b & Ha & Hb & Hab)]].
  - rewrite (all_equal_first_distinct _ _ _ Ha Hb Hab). simpl. eauto.
  - assert (exists g, g ∈ graph_ids) as [g Hgin].
    { apply column_length in Hg, Hl. destruct graph_ids as [|g ?].
      - destruct labels; [by apply elem_of_nil in Ha|]. simpl in *. lia.
      - exists g. by left. }
    destruct (all_equal_first_nonempty _ _ Hgin) as [same ->]. simpl.
    destruct same; simpl; [|eauto].
    rewrite Hpred. rewrite (all_equal_first_distinct _ _ _ Ha Hb Hab). simpl.
    eauto.
Qed.

(** One frame group that [__compute] rejects stops the whole batch. *)
Lemma convert_rejects_batch (self : Converter) (dataset : list Row) (r : Row) :
  r ∈ dataset ->
  raises (__compute NDArray shape tolist get_ball_carrier_idx
                    compute_adjacency_matrix_pl compute_edge_features_pl
                    compute_node_features_pl self
                    (filter (fun r' => (col_game_id r', col_frame_id r')
                                       = (col_game_id r, col_frame_id r)) dataset)) ->
  raises (_convert NDArray shape tolist get_ball_carrier_idx
                   compute_adjacency_matrix_pl compute_edge_features_pl
                   compute_node_features_pl self dataset).
Proof.
  intros Hr Hraise. unfold _convert.
  eapply (mapM_raises _ _ ((col_game_id r, col_frame_id r), _)); [|exact Hraise].
  unfold group_by. apply list_elem_of_fmap.
  exists (col_game_id r, col_frame_id r). split; [reflexivity|].
  apply elem_of_unique, list_elem_of_fmap. eauto.
Qed.

End Assembler.

Lemma compute_rejects_mixed_group_witness :
  exists msg,
    __compute (list (list Q)) (fun m => (length m, 0%nat)) (fun m => m)
              (fun _ _ _ _ _ _ _ => None) (fun _ _ _ _ => [])
              (fun _ _ _ _ _ _ _ => []) (fun _ _ _ _ _ _ _ _ => [])
              converter0 [labelled 1; labelled 1; labelled 0]
    = Raise (Exception msg).
Proof.
  apply (compute_rejects_mixed_group _ _ _ _ _ _ _ converter0
           [labelled 1; labelled 1; labelled 0]
           [VStr "game"; VStr "game"; VStr "game"] [VNum 1; VNum 1; VNum 0]).
  - reflexivity.
  - reflexivity.
  - right. split; [reflexivity|].
    exists (VNum 1), (VNum 0).
    split; [by left|]. split; [by right; right; left|]. reflexivity.
Defined.

(** *** FramePadder *)

Section Padding.

Variable df : list Row.

Lemma group_rows_nonempty (k : GroupKey) :
  k ∈ map group_key df -> exists base rest, group_rows df k = base :: rest.
Proof.
  intros Hk. apply list_elem_of_fmap in Hk as (r & -> & Hr).
  destruct (group_rows df (group_key r)) as [|base rest] eqn:E; [|eauto].
  assert (r ∈ group_rows df (group_key r)) as Hin
    by by apply list_elem_of_filter.
  rewrite E in Hin. by apply elem_of_nil in Hin.
Qed.

Lemma counts_unfold :
  counts df = flat_map (count_row df) (unique (map group_key df)).
Proof.
  unfold counts, group_by.
  induction (unique (map group_key df)) as [|k ks IH]; simpl; [reflexivity|].
  by rewrite IH.
Qed.

Lemma elem_of_counts (c : CountRow) :
  c ∈ counts df <->
  exists rest, group_rows df (cnt_key c) = cnt_first c :: rest /\
               cnt_count c = Z.of_nat (length (group_rows df (cnt_key c))).
Proof.
  rewrite counts_unfold, elem_of_flat_map. split.
  - intros (k & _ & Hc). unfold count_row in Hc.
    destruct (group_rows df k) as [|r rest] eqn:E; [by apply elem_of_nil in Hc|].
    apply list_elem_of_singleton in Hc as ->. simpl. rewrite E. eauto.
  - intros (rest & Hrows & Hcount). exists (cnt_key c). split.
    + apply elem_of_unique, list_elem_of_fmap. exists (cnt_first c). split.
      * assert (cnt_first c ∈ group_rows df (cnt_key c)) as Hin
          by (rewrite Hrows; by left).
        apply list_elem_of_filter in Hin as [Hin _]. by symmetry.
      * assert (cnt_first c ∈ group_rows df (cnt_key c)) as Hin
          by (rewrite Hrows; by left).
        by apply list_elem_of_filter in Hin as [_ Hin].
    + unfold count_row. rewrite Hrows. rewrite Hrows in Hcount.
      destruct c; simpl in *; subst. by left.
Qed.

Lemma counts_keys : map cnt_key (counts df) = unique (map group_key df).
Proof.
  rewrite counts_unfold.
  assert (Hall : forall k, k ∈ unique (map group_key df) -> k ∈ map group_key df)
    by (intros k; apply elem_of_unique).
  induction (unique (map group_key df)) as [|k ks IH]; simpl; [reflexivity|].
  rewrite map_app, IH by (intros k' Hk'; apply Hall; by right).
  destruct (group_rows_nonempty k) as (base & rest & E); [apply Hall; by left|].
  unfold count_row. by rewrite E.
Qed.

Lemma group_key_padding_row (b : bool) (c : CountRow) :
  group_key (padding_row b c) = cnt_key c.
Proof.
  unfold padding_row. destruct (cnt_key c) as [[[[game period] frame] team] owner].
  reflexivity.
Qed.

Lemma synthetic_other (b : bool) (cs : list CountRow) (k : GroupKey) :
  k ∉ map cnt_key cs ->
  filter (fun r => group_key r = k) (synthetic_rows b cs) = [].
Proof.
  induction cs as [|c cs IH]; intros Hk; [reflexivity|]. simpl in *.
  rewrite not_elem_of_cons in Hk. destruct Hk as [Hne Hk].
  rewrite filter_app, filter_replicate, IH by done.
  rewrite decide_False; [reflexivity|]. by rewrite group_key_padding_row.
Qed.

(** The synthetic rows of one group, out of those of a list of groups
    with distinct keys. *)
Lemma synthetic_of_group (b : bool) (cs : list CountRow) (c : CountRow) :
  NoDup (map cnt_key cs) -> c ∈ cs ->
  filter (fun r => group_key r = cnt_key c) (synthetic_rows b cs)
  = replicate (Z.to_nat (repeats c)) (padding_row b c).
Proof.
  induction cs as [|c' cs IH]; intros Hnd Hc; [by apply elem_of_nil in Hc|].
  simpl in *. apply NoDup_cons in Hnd as [Hfresh Hnd].
  rewrite filter_app, filter_replicate, group_key_padding_row.
  apply elem_of_cons in Hc as [->|Hc].
  - rewrite decide_True by done. by rewrite synthetic_other, app_nil_r.
  - rewrite decide_False, IH by (try done; intros E; apply Hfresh; rewrite E;
                                 apply list_elem_of_fmap; eauto).
    reflexivity.
Qed.

Lemma NoDup_groups_to_pad : NoDup (map cnt_key (groups_to_pad df)).
Proof.
  unfold groups_to_pad.
  assert (Hnd : NoDup (map cnt_key (counts df)))
    by (rewrite counts_keys; apply NoDup_unique).
  induction (counts df) as [|c cs IH]; [constructor|].
  simpl in Hnd. apply NoDup_cons in Hnd as [Hfresh Hnd].
  rewrite filter_cons. destruct (decide _); [|by apply IH].
  simpl. apply NoDup_cons. split; [|by apply IH].
  intros Hin. apply Hfresh. apply list_elem_of_fmap in Hin as (c' & E & Hc').
  apply list_elem_of_filter in Hc' as [_ Hc']. apply list_elem_of_fmap. eauto.
Qed.

Lemma synthetic_short_group (k : GroupKey) (base : Row) (rest : list Row) :
  group_rows df k = base :: rest ->
  Z.of_nat (length (group_rows df k)) < target_length k ->
  synthetic df k
  = replicate (Z.to_nat (target_length k - Z.of_nat (length (group_rows df k))))
              (padding_row (id_is_string df)
                           (mkCountRow k (Z.of_nat (length (group_rows df k))) base)).
Proof.
  intros Hrows Hshort.
  set (c := mkCountRow k (Z.of_nat (length (group_rows df k))) base).
  assert (Hc : c ∈ groups_to_pad df).
  { apply list_elem_of_filter. split; [exact Hshort|].
    apply elem_of_counts. exists rest. by split. }
  unfold synthetic, padding_df.
  apply (synthetic_of_group (id_is_string df) (groups_to_pad df) c
           NoDup_groups_to_pad Hc).
Qed.

Lemma padding_row_neutral (b : bool) (c : CountRow) :
  col_id (padding_row b c) = (if b then VStr "None" else VNum 0) /\
  motion_columns (padding_row b c) = replicate 11 0%Q /\
  keep_columns (padding_row b c) = keep_columns (cnt_first c).
Proof.
  unfold padding_row. destruct (cnt_key c) as [[[[game period] frame] team] owner].
  by repeat split.
Qed.

Lemma groups_to_pad_early_return :
  groups_to_pad df = [] -> _apply_padding df = mkPadded df None.
Proof. intros E. unfold _apply_padding. by rewrite E. Qed.

Lemma elem_of_frame_completeness (result : list Row) (fk : FrameKey) :
  fk ∈ frame_completeness result <->
  fk ∈ map frame_key result /\
  frame_complete (filter (fun r => frame_key r = fk) result) = true.
Proof.
  unfold frame_completeness, group_by.
  rewrite list_elem_of_fmap. split.
  - intros ([fk' rows] & -> & Hin). simpl.
    apply list_elem_of_filter in Hin as [Hcomplete Hin]. simpl in Hcomplete.
    apply list_elem_of_fmap in Hin as (k & [= -> ->] & Hk).
    rewrite elem_of_unique in Hk. by split.
  - intros [Hfk Hcomplete].
    exists (fk, filter (fun r => frame_key r = fk) result). split; [reflexivity|].
    apply list_elem_of_filter. split; [exact Hcomplete|].
    apply list_elem_of_fmap. exists fk. split; [reflexivity|].
    by apply elem_of_unique.
Qed.

(** Past the early return, the re-check is applied to every frame: a row
    of the padded frame is returned exactly when its frame is complete. *)
Lemma apply_padding_rechecks (r : Row) :
  groups_to_pad df <> [] ->
  r ∈ pad_rows (_apply_padding df) <->
  r ∈ padded df /\
  frame_complete (filter (fun r' => frame_key r' = frame_key r) (padded df)) = true.
Proof.
  intros Hne. unfold _apply_padding.
  destruct (groups_to_pad df) as [|c cs] eqn:E; [done|]. simpl.
  rewrite list_elem_of_filter, elem_of_frame_completeness.
  split.
  - intros [[_ Hc] Hr]. by split.
  - intros [Hr Hc]. split; [|done]. split; [|done].
    apply list_elem_of_fmap. eauto.
Qed.

End Padding.

Lemma frame_key_of_group (r : Row) (k : GroupKey) :
  group_key r = k -> frame_key r = key_frame k.
Proof. intros <-. reflexivity. Qed.

(** What the returned frame holds of a group: its rows followed by its
    synthetic rows when the padded frame passes the re-check, nothing
    otherwise. *)
Lemma returned_group (df : list Row) (k : GroupKey) :
  k ∈ map group_key df ->
  groups_to_pad df <> [] ->
  filter (fun r => group_key r = k) (pad_rows (_apply_padding df))
  = if frame_complete (filter (fun r => frame_key r = key_frame k) (padded df))
    then group_rows df k ++ synthetic df k
    else [].
Proof.
  intros Hk Hne. unfold _apply_padding.
  destruct (groups_to_pad df) as [|c cs] eqn:E; [done|]. simpl.
  rewrite list_filter_filter.
  assert (Hframe : key_frame k ∈ map frame_key (padded df)).
  { apply list_elem_of_fmap in Hk as (r & -> & Hr).
    apply list_elem_of_fmap. exists r. split; [done|].
    unfold padded. apply elem_of_app. by left. }
  destruct (frame_complete _) eqn:Hc.
  - unfold group_rows, synthetic. rewrite <- filter_app. fold (padded df).
    apply list_filter_iff. intros r. split; [tauto|]. intros Hr. split; [done|].
    apply elem_of_frame_completeness. rewrite (frame_key_of_group r k Hr).
    by split.
  - apply filter_none. intros r _ [Hr Hin].
    apply elem_of_frame_completeness in Hin as [_ Hin].
    rewrite (frame_key_of_group r k Hr) in Hin. congruence.
Qed.



Example apply_padding_short_frame :
  pad_rows (_apply_padding short_frame)
  = short_frame ++ replicate 2 (mkRow "game" 1 10 0 "alive" "home" "home" "CB" (VNum 0)
                                      0 0 0 0 0 0 0 0 0 0 0 (VNum 1) (VStr "game"))
  /\ pad_warning (_apply_padding short_frame) = None.
Proof. split; reflexivity. Qed.

(** C5 (the code as written). When no group is short of its target,
    [_apply_padding] returns before the completeness re-check: a frame with
    eleven rows per team and no ball row fails the check, and is handed back
    unchanged, without a warning. *)
Theorem apply_padding_keeps_frame_without_ball :
  frame_complete frame_without_ball = false /\
  _apply_padding frame_without_ball = mkPadded frame_without_ball None.
Proof. split; reflexivity. Qed.

(** With a group to pad, the same defect of the frame gets it dropped, with
    the warning. *)
Example apply_padding_drops_short_frame_without_ball :
  _apply_padding short_frame_without_ball
  = mkPadded [] (Some (mkDropWarning 1 1 ((inject_Z 1 / inject_Z 1) * 100)%Q)).
Proof. reflexivity. Qed.

(** *** BatchConverter *)

Section Batch.

Variable NDArray : Type.
Variable Sparse : Type.
Variable shape : NDArray -> nat * nat.
Variable tolist : NDArray -> list (list Q).
Variable get_ball_carrier_idx :
  list Q -> list Q -> list Q -> list string -> list string -> string -> Q -> option nat.
Variable compute_adjacency_matrix_pl :
  list string -> list string -> Settings -> option nat -> NDArray.
Variable compute_edge_features_pl :
  NDArray -> list (Q * Q * Q) -> list (Q * Q) -> list Q -> list (Q * Q) ->
  list string -> Settings -> NDArray.
Variable compute_node_features_pl :
  list Q -> list Q -> list Q -> list (Q * Q) -> list string -> list string ->
  list Z -> Settings -> NDArray.
Variable flatten_to_reshaped_array : list (list Q) -> nat -> nat -> NDArray.
Variable make_sparse : NDArray -> Sparse.

Local Abbreviation dict :=
  (graph_dict NDArray Sparse flatten_to_reshaped_array make_sparse).

Lemma extend_chunks (chunks : list (list GraphRecord))
      (graph_list : list (GraphDict NDArray Sparse)) :
  foldl (fun acc chunk => acc ++ map dict chunk) graph_list chunks
  = graph_list ++ map dict (concat chunks).
Proof.
  revert graph_list. induction chunks as [|c chunks IH]; intros graph_list; simpl.
  - by rewrite app_nil_r.
  - rewrite IH, map_app. by rewrite <- app_assoc.
Qed.

(** The local helper of [to_graph_frames], taken on its own, yields one
    dictionary per record in record order for every positive chunk size:
    the slices of [iter_slices] only group the rows. *)
Lemma convert_to_graph_data_list_any_chunk (self : Converter) (df : list GraphRecord) :
  0 < cv_chunk_size self ->
  convert_to_graph_data_list NDArray Sparse flatten_to_reshaped_array make_sparse
                             self df
  = Ok (map dict df).
Proof.
  intros Hpos. unfold convert_to_graph_data_list, iter_slices.
  destruct (Z.eqb_spec (cv_chunk_size self) 0) as [|_]; [lia|].
  destruct (Z.ltb_spec (cv_chunk_size self) 0) as [|_]; [lia|].
  simpl. f_equal. rewrite extend_chunks. simpl. f_equal.
  apply concat_slices, slices_cover. lia.
Qed.

(** C7 (the code as written). [to_graph_frames] hands back no list at
    all: whatever the data set and the chunk size, it ends in an
    exception, the one of [_convert] or the [AttributeError] of the
    attribute lookup that follows it. *)
Theorem to_graph_frames_raises (self : Converter) (dataset : list Row) :
  raises (to_graph_frames NDArray Sparse shape tolist get_ball_carrier_idx
                          compute_adjacency_matrix_pl compute_edge_features_pl
                          compute_node_features_pl self dataset).
Proof.
  unfold to_graph_frames, raises.
  destruct (_convert _ _ _ _ _ _ _ _ _) as [graph_df|e]; simpl; eauto.
Qed.

End Batch.

Example to_graph_frames_one_frame :
  to_graph_frames (list (list Q)) unit (fun m => (length m, 0%nat)) (fun m => m)
                  (fun _ _ _ _ _ _ _ => None) (fun _ _ _ _ => [])
                  (fun _ _ _ _ _ _ _ => []) (fun _ _ _ _ _ _ _ _ => [])
                  converter0 [labelled 1; labelled 1; labelled 1]
  = Raise AttributeError.
Proof. reflexivity. Qed.

End ConverterSpec.

(** ** The dataset *)

Module DatasetSpec.

Import Dataset Inputs PyFacts.

Section Positions.
Context {Graph : Type}.

Lemma getitem_positions (graphs : list Graph) (idxs : list nat) (subset : list Graph) :
  getitem graphs idxs = Ok subset <-> positions graphs idxs subset.
Proof.
  unfold getitem, positions. rewrite <- mapM_Some.
  destruct (mapM _ idxs); simpl; split; congruence.
Qed.

Lemma getitem_in_range (graphs : list Graph) (idxs : list nat) :
  (forall i, i ∈ idxs -> (i < length graphs)%nat) ->
  exists subset, getitem graphs idxs = Ok subset.
Proof.
  intros Hr. unfold getitem.
  destruct (mapM_is_Some_2 (fun i => graphs !! i) idxs) as [subset ->]; [|by eexists].
  apply Forall_forall. intros i Hi. by apply lookup_lt_is_Some, Hr.
Qed.

Lemma positions_seq (graphs : list Graph) :
  positions graphs (seq 0 (length graphs)) graphs.
Proof.
  apply Forall2_same_length_lookup. split; [by rewrite length_seq|].
  intros i j g Hj Hg. apply lookup_seq in Hj as [-> _]. done.
Qed.

Lemma getitem_length (graphs : list Graph) (idxs : list nat) (subset : list Graph) :
  getitem graphs idxs = Ok subset -> length subset = length idxs.
Proof.
  rewrite getitem_positions. intros Hp. symmetry. by eapply Forall2_length.
Qed.
End Positions.

Section SplitPlain.

Context {Id : Type} `{EqDecision Id}.
Variable Id_leb : Id -> Id -> bool.
Context {Graph : Type}.
Variable graph_id : Graph -> option Id.
Context {RngState : Type}.
Variable np_random_seed : Z -> RngState.
Variable np_random_shuffle :
  RngState -> list (option Id) -> list (option Id) * RngState.
Variable RandomState_permutation : Z -> nat -> list nat.

(** numpy's contract for [permutation(n)]: a rearrangement of [0..n-1]. *)
Hypothesis permutation_perm :
  forall seed n, RandomState_permutation seed n ≡ₚ seq 0 n.

Lemma plain_idxs_perm (random_seed : option Z) (n : nat) :
  plain_idxs RandomState_permutation random_seed n ≡ₚ seq 0 n.
Proof. unfold plain_idxs. destruct (seed_truthy _); [apply permutation_perm|done]. Qed.

Lemma plain_idxs_length (random_seed : option Z) (n : nat) :
  length (plain_idxs RandomState_permutation random_seed n) = n.
Proof. by rewrite plain_idxs_perm, length_seq. Qed.

Lemma getitem_sub (graphs : list Graph) (random_seed : option Z) (idxs : list nat) :
  idxs ⊆ plain_idxs RandomState_permutation random_seed (length graphs) ->
  exists subset, getitem graphs idxs = Ok subset.
Proof.
  intros Hsub. apply getitem_in_range. intros i Hi. apply Hsub in Hi.
  rewrite plain_idxs_perm in Hi. apply elem_of_seq in Hi. lia.
Qed.

(** The two-way return of [split_plain]. *)
Lemma split_plain_two (graphs : list Graph) (random_seed : option Z)
      (num_train num_test num_validation : Z) :
  0 <= num_train <= Z.of_nat (length graphs) ->
  num_validation <= 0 ->
  exists train test,
    positions graphs
      (take (Z.to_nat num_train)
            (plain_idxs RandomState_permutation random_seed (length graphs)))
      train /\
    positions graphs
      (drop (Z.to_nat num_train)
            (plain_idxs RandomState_permutation random_seed (length graphs)))
      test /\
    split_plain RandomState_permutation graphs random_seed
                num_train num_test num_validation
    = Ok (train, test, None).
Proof.
  intros Htrain Hval. unfold split_plain.
  fold (plain_idxs RandomState_permutation random_seed (length graphs)).
  set (idxs := plain_idxs RandomState_permutation random_seed (length graphs)).
  assert (Hlen : length idxs = length graphs) by apply plain_idxs_length.
  destruct (Z.ltb_spec 0 num_validation); [lia|].
  rewrite py_slice_prefix, py_slice_suffix by lia.
  destruct (getitem_sub graphs random_seed (take (Z.to_nat num_train) idxs))
    as [train Ht]; [apply subseteq_take|].
  destruct (getitem_sub graphs random_seed (drop (Z.to_nat num_train) idxs))
    as [test Hte]; [apply subseteq_drop|].
  exists train, test. rewrite Ht, Hte. simpl.
  by rewrite <- !getitem_positions.
Qed.

(** The three-way return of [split_plain]. *)
Lemma split_plain_three (graphs : list Graph) (random_seed : option Z)
      (num_train num_test num_validation : Z) :
  0 <= num_train -> 0 <= num_test -> 0 < num_validation ->
  num_train + num_test + num_validation = Z.of_nat (length graphs) ->
  exists train test validation,
    positions graphs
      (take (Z.to_nat num_train)
            (plain_idxs RandomState_permutation random_seed (length graphs)))
      train /\
    positions graphs
      (take (Z.to_nat num_test)
            (drop (Z.to_nat num_train)
                  (plain_idxs RandomState_permutation random_seed (length graphs))))
      test /\
    positions graphs
      (drop (Z.to_nat num_train + Z.to_nat num_test)
            (plain_idxs RandomState_permutation random_seed (length graphs)))
      validation /\
    split_plain RandomState_permutation graphs random_seed
                num_train num_test num_validation
    = Ok (train, test, Some validation).
Proof.
  intros Htrain Htest Hval Hsum. unfold split_plain.
  fold (plain_idxs RandomState_permutation random_seed (length graphs)).
  set (idxs := plain_idxs RandomState_permutation random_seed (length graphs)).
  assert (Hlen : length idxs = length graphs) by apply plain_idxs_length.
  destruct (Z.ltb_spec 0 num_validation); [|lia].
  rewrite py_slice_prefix by lia.
  rewrite (py_slice_middle idxs num_train num_test) by lia.
  rewrite (py_slice_middle idxs (num_train + num_test) num_validation) by lia.
  replace (Z.to_nat (num_train + num_test))
    with (Z.to_nat num_train + Z.to_nat num_test)%nat by lia.
  rewrite (take_ge (drop (Z.to_nat num_train + Z.to_nat num_test) idxs))
    by (rewrite length_drop; lia).
  destruct (getitem_sub graphs random_seed (take (Z.to_nat num_train) idxs))
    as [train Ht]; [apply subseteq_take|].
  destruct (getitem_sub graphs random_seed
              (take (Z.to_nat num_test) (drop (Z.to_nat num_train) idxs)))
    as [test Hte]; [etrans; [apply subseteq_take|apply subseteq_drop]|].
  destruct (getitem_sub graphs random_seed
              (drop (Z.to_nat num_train + Z.to_nat num_test) idxs))
    as [validation Hv]; [apply subseteq_drop|].
  exists train, test, validation. rewrite Ht, Hte, Hv. simpl.
  by rewrite <- !getitem_positions.
Qed.

Lemma num_of_share (p total : Q) (n : nat) :
  (0 <= p)%Q -> (0 < total)%Q ->
  num_of (p / total) n = Z.of_nat (share p total n).
Proof.
  intros Hp Ht. unfold num_of, share.
  assert (Hq : (0 <= p / total * inject_Z (Z.of_nat n))%Q).
  { apply Qmult_le_0_compat; [by apply pct_nonneg|apply inject_nat_nonneg]. }
  rewrite py_int_floor by done. pose proof (Qfloor_nonneg _ Hq). lia.
Qed.

(** Without graph-id partitioning the call comes down to [split_plain] on
    the three counts, and the process-wide generator is not touched. *)
Lemma split_without_graph_ids (graphs : list Graph) (p_train p_test p_val : Q)
      (random_seed : option Z) (rng : RngState) :
  (0 < p_train + p_test + p_val)%Q ->
  let total := (p_train + p_test + p_val)%Q in
  let n := length graphs in
  let num_train := num_of (p_train / total) n in
  let num_test :=
    if Qgtb p_val 0 then num_of (p_test / total) n else Z.of_nat n - num_train in
  let num_validation :=
    if Qgtb p_val 0 then Z.of_nat n - num_train - num_test else 0 in
  returned (split_test_train_validation
              Id_leb graph_id np_random_seed np_random_shuffle
              RandomState_permutation
              graphs p_train p_test p_val false random_seed rng)
  = split_plain RandomState_permutation graphs random_seed
                num_train num_test num_validation /\
  rng_after (split_test_train_validation
              Id_leb graph_id np_random_seed np_random_shuffle
              RandomState_permutation
              graphs p_train p_test p_val false random_seed rng) = rng.
Proof.
  intros Ht. cbv zeta. unfold split_test_train_validation.
  destruct (Qeq_bool _ 0) eqn:E; [apply Qeq_bool_iff in E; lra|].
  cbn [andb]. rewrite Qgtb_pct by done.
  destruct (bool_decide (unique (map graph_id graphs) = [None])); done.
Qed.

Lemma counts_fit (p_train p_test p_val : Q) (n : nat) :
  (0 <= p_train)%Q -> (0 <= p_test)%Q -> (0 <= p_val)%Q ->
  (0 < p_train + p_test + p_val)%Q ->
  (n_train p_train p_test p_val n + n_test p_train p_test p_val n <= n)%nat.
Proof.
  intros Htrain Htest Hval Ht. unfold n_test, n_train, share.
  set (total := (p_train + p_test + p_val)%Q) in *.
  assert (Hone : (p_train / total <= 1)%Q).
  { apply Qle_shift_div_r; [done|]. unfold total. lra. }
  pose proof (floor_part_le (p_train / total) n (pct_nonneg _ _ Htrain Ht) Hone).
  pose proof (floor_parts_le (p_train / total) (p_test / total) n
                (pct_nonneg _ _ Htrain Ht) (pct_nonneg _ _ Htest Ht)
                (pct_sum_le _ _ _ Hval Ht)).
  pose proof (Qfloor_nonneg (p_train / total * inject_Z (Z.of_nat n))
                ltac:(apply Qmult_le_0_compat;
                      [by apply pct_nonneg|apply inject_nat_nonneg])).
  pose proof (Qfloor_nonneg (p_test / total * inject_Z (Z.of_nat n))
                ltac:(apply Qmult_le_0_compat;
                      [by apply pct_nonneg|apply inject_nat_nonneg])).
  destruct (Qgtb p_val 0); lia.
Qed.

(** What a call without graph-id partitioning returns: the index order
    [plain_idxs] cut after [n_train] and after [n_train + n_test]
    positions, the last piece being handed back as the validation subset
    when it is not empty. *)
Lemma split_plain_shape (graphs : list Graph) (p_train p_test p_val : Q)
      (random_seed : option Z) (rng : RngState) :
  (0 <= p_train)%Q -> (0 <= p_test)%Q -> (0 <= p_val)%Q ->
  (0 < p_train + p_test + p_val)%Q ->
  let n := length graphs in
  let idxs := plain_idxs RandomState_permutation random_seed n in
  let a := n_train p_train p_test p_val n in
  let b := n_test p_train p_test p_val n in
  exists train test validation,
    positions graphs (take a idxs) train /\
    positions graphs (take b (drop a idxs)) test /\
    positions graphs (drop (a + b) idxs) validation /\
    returned (split_test_train_validation
              Id_leb graph_id np_random_seed np_random_shuffle
              RandomState_permutation
              graphs p_train p_test p_val false random_seed rng)
    = Ok (train, test,
          if decide (0 < n_validation p_train p_test p_val n)%nat
          then Some validation else None).
Proof.
  intros Htrain Htest Hval Ht n idxs a b.
  destruct (split_without_graph_ids graphs p_train p_test p_val random_seed rng Ht)
    as [-> _].
  pose proof (counts_fit p_train p_test p_val n Htrain Htest Hval Ht) as Hfit.
  assert (Hlen : length idxs = n) by apply plain_idxs_length.
  fold n. rewrite !num_of_share by done.
  fold (n_train p_train p_test p_val n). fold a.
  unfold n_validation. fold a b. subst b. unfold n_test in *. fold a in Hfit |- *.
  set (total := (p_train + p_test + p_val)%Q) in *.
  destruct (Qgtb p_val 0) eqn:Hv;
    [destruct (decide (0 < n - a - share p_test total n)%nat) as [Hpos|Hzero]|].
  - (* a validation subset is requested, and is not empty *)
    destruct (split_plain_three graphs random_seed
                (Z.of_nat a) (Z.of_nat (share p_test total n))
                (Z.of_nat n - Z.of_nat a - Z.of_nat (share p_test total n)))
      as (train & test & validation & H1 & H2 & H3 & ->); try lia.
    rewrite !Nat2Z.id in *. by exists train, test, validation.
  - (* a validation subset is requested, and nothing is left for it *)
    destruct (split_plain_two graphs random_seed (Z.of_nat a)
                (Z.of_nat (share p_test total n))
                (Z.of_nat n - Z.of_nat a - Z.of_nat (share p_test total n)))
      as (train & test & H1 & H2 & ->); try lia.
    rewrite !Nat2Z.id in *. exists train, test, [].
    fold n idxs in H1, H2.
    rewrite (take_ge (drop a idxs)) by (rewrite length_drop; lia).
    rewrite (drop_ge idxs (a + share p_test total n)) by lia.
    repeat split; try done. constructor.
  - (* no validation subset is requested *)
    destruct (split_plain_two graphs random_seed (Z.of_nat a)
                (Z.of_nat n - Z.of_nat a) 0)
      as (train & test & H1 & H2 & ->); try lia.
    rewrite !Nat2Z.id in *. exists train, test, [].
    fold n idxs in H1, H2.
    rewrite (take_ge (drop a idxs)) by (rewrite length_drop; lia).
    rewrite (drop_ge idxs (a + (n - a))) by lia.
    rewrite decide_False by lia.
    repeat split; try done. constructor.
Qed.


Lemma positions_fun (graphs : list Graph) (idxs : list nat) (s1 s2 : list Graph) :
  positions graphs idxs s1 -> positions graphs idxs s2 -> s1 = s2.
Proof. rewrite <- !getitem_positions. congruence. Qed.

Lemma positions_slice (graphs : list Graph) (a b : nat) :
  positions graphs (take b (drop a (seq 0 (length graphs))))
            (take b (drop a graphs)).
Proof. apply Forall2_take, Forall2_drop, positions_seq. Qed.


(** C8. Without graph-id partitioning the subsets returned are a function
    of the collection, the proportions and the seed alone: two calls with
    the same arguments return the same subsets whatever state the
    process-wide random generator is in at each call, and neither call
    changes that state. *)
Theorem split_plain_deterministic (graphs : list Graph) (p_train p_test p_val : Q)
        (random_seed : option Z) (rng1 rng2 : RngState) :
  returned (split_test_train_validation
              Id_leb graph_id np_random_seed np_random_shuffle
              RandomState_permutation
              graphs p_train p_test p_val false random_seed rng1)
  = returned (split_test_train_validation
              Id_leb graph_id np_random_seed np_random_shuffle
              RandomState_permutation
              graphs p_train p_test p_val false random_seed rng2) /\
  rng_after (split_test_train_validation
              Id_leb graph_id np_random_seed np_random_shuffle
              RandomState_permutation
              graphs p_train p_test p_val false random_seed rng1) = rng1.
Proof.
  unfold split_test_train_validation.
  destruct (Qeq_bool _ 0); [done|]. cbn [andb].
  destruct (bool_decide (unique (map graph_id graphs) = [None])); done.
Qed.


End SplitPlain.

(** *** Partitioning by graph id *)

Lemma elem_of_where {A : Type} (P : A -> bool) (l : list A) (i : nat) :
  i ∈ where_ P l <-> exists x, l !! i = Some x /\ P x = true.
Proof.
  unfold where_. rewrite list_elem_of_filter, elem_of_seq. split.
  - intros [HP _]. destruct (l !! i) as [x|]; [eauto|done].
  - intros (x & Hx & HP). rewrite Hx. split; [done|].
    apply lookup_lt_Some in Hx. lia.
Qed.

Lemma NoDup_where {A : Type} (P : A -> bool) (l : list A) : NoDup (where_ P l).
Proof. apply NoDup_filter, NoDup_seq. Qed.

Section ByGraphId.

Context {Id : Type} `{EqDecision Id}.
Variable Id_leb : Id -> Id -> bool.
Context {Graph : Type}.
Variable graph_id : Graph -> option Id.
Context {RngState : Type}.
Variable np_random_seed : Z -> RngState.
Variable np_random_shuffle :
  RngState -> list (option Id) -> list (option Id) * RngState.
Variable RandomState_permutation : Z -> nat -> list nat.

(** numpy's contract for [shuffle]: the list is rearranged. *)
Hypothesis shuffle_perm : forall rng l, (np_random_shuffle rng l).1 ≡ₚ l.

Lemma elem_of_positions_of (graph_ids : list Id) (taken : list (option Id)) (i : nat) :
  i ∈ positions_of graph_ids taken <->
  exists g, graph_ids !! i = Some g /\ Some g ∈ taken.
Proof.
  unfold positions_of. rewrite elem_of_flat_map. split.
  - intros (u & Hu & Hi). apply elem_of_where in Hi as (g & Hg & HP).
    apply bool_decide_eq_true in HP as <-. eauto.
  - intros (g & Hg & Hin). exists (Some g). split; [done|].
    apply elem_of_where. exists g. split; [done|]. by apply bool_decide_eq_true.
Qed.

Lemma NoDup_positions_of (graph_ids : list Id) (taken : list (option Id)) :
  NoDup taken -> NoDup (positions_of graph_ids taken).
Proof.
  induction taken as [|u taken IH]; intros Hnd; [constructor|].
  apply NoDup_cons in Hnd as [Hu Hnd]. unfold positions_of. simpl.
  apply NoDup_app. split; [apply NoDup_where|]. split; [|by apply IH].
  intros i Hi Hi'. apply elem_of_where in Hi as (g & Hg & HP).
  apply bool_decide_eq_true in HP as <-.
  apply elem_of_positions_of in Hi' as (g' & Hg' & Hin). congruence.
Qed.

Lemma insert_sorted_perm (a : option Id) (l : list (option Id)) :
  insert_sorted Id_leb a l ≡ₚ a :: l.
Proof.
  induction l as [|b l IH]; simpl; [done|].
  destruct (opt_leb Id_leb a b); [done|]. rewrite IH. apply Permutation_swap.
Qed.

Lemma sorted_perm (l : list (option Id)) : sorted Id_leb l ≡ₚ l.
Proof.
  unfold sorted. induction l as [|a l IH]; simpl; [done|].
  by rewrite insert_sorted_perm, IH.
Qed.

(** What a fill loop that ends has done: it has taken a prefix of the ids
    still to hand out, added the positions of their graphs, and struck them
    from the set. *)
Lemma fill_taken (graph_ids : list Id) (num : Z) (todo unique_graph_ids : list (option Id))
      (idxs idxs' : list nat) (todo' remaining : list (option Id)) :
  fill graph_ids num todo unique_graph_ids idxs = Ok (idxs', todo', remaining) ->
  exists taken,
    todo = taken ++ todo' /\
    idxs' = idxs ++ positions_of graph_ids taken /\
    forall u, u ∈ remaining <-> u ∈ unique_graph_ids /\ u ∉ taken.
Proof.
  revert unique_graph_ids idxs.
  induction todo as [|u todo IH]; intros unique_graph_ids idxs; simpl.
  - destruct (_ <? _); [done|]. intros [= <- <- <-]. exists [].
    split; [done|]. split; [by rewrite app_nil_r|].
    intros u. rewrite elem_of_nil. tauto.
  - destruct (_ <? _).
    + intros Hfill. apply IH in Hfill as (taken & -> & -> & Hrem).
      exists (u :: taken). split; [done|]. split.
      * unfold positions_of. simpl. by rewrite app_assoc.
      * intros v. rewrite Hrem, list_elem_of_filter, not_elem_of_cons. tauto.
    + intros [= <- <- <-]. exists [].
      split; [done|]. split; [by rewrite app_nil_r|].
      intros v. rewrite elem_of_nil. tauto.
Qed.

Lemma mapM_Ok {A B : Type} (f : A -> result B) (l : list A) (k : list B) :
  mapM f l = Ok k -> Forall2 (fun x y => f x = Ok y) l k.
Proof.
  revert k. induction l as [|x l IH]; intros k; simpl.
  - intros [= <-]. constructor.
  - destruct (f x) as [y|] eqn:Hx; simpl; [|done].
    destruct (mapM f l) as [k'|]; simpl; [|done].
    intros [= <-]. constructor; auto.
Qed.

(** Whenever the graph-id branch hands back its three index lists, they
    are a partition of [0..n-1] that never separates two graphs carrying
    the same id. *)
Lemma split_by_graph_id_partition (graphs : list Graph) (random_seed : option Z)
      (num_test num_validation : Z) (rng rng' : RngState)
      (train_idxs test_idxs validation_idxs : list nat) :
  split_by_graph_id Id_leb graph_id np_random_seed np_random_shuffle
                    graphs random_seed (unique (map graph_id graphs))
                    num_test num_validation rng
  = (Ok (train_idxs, test_idxs, validation_idxs), rng') ->
  train_idxs ++ test_idxs ++ validation_idxs ≡ₚ seq 0 (length graphs) /\
  forall i j gi gj,
    graphs !! i = Some gi -> graphs !! j = Some gj -> graph_id gi = graph_id gj ->
    (i ∈ train_idxs <-> j ∈ train_idxs) /\
    (i ∈ test_idxs <-> j ∈ test_idxs) /\
    (i ∈ validation_idxs <-> j ∈ validation_idxs).
Proof.
  unfold split_by_graph_id.
  destruct (mapM _ graphs) as [graph_ids|e] eqn:Hids; [|done].
  apply mapM_Ok in Hids.
  assert (Hid : forall i g, graphs !! i = Some g ->
                  exists u, graph_ids !! i = Some u /\ graph_id g = Some u).
  { intros i g Hg. destruct (Forall2_lookup_l _ _ _ _ _ Hids Hg) as (u & Hu & Hf).
    exists u. split; [done|]. by destruct (graph_id g); simplify_eq/=. }
  assert (Hlen : length graph_ids = length graphs)
    by (symmetry; by eapply Forall2_length).
  set (U := unique (map graph_id graphs)).
  set (rng1 := match seed_truthy random_seed with
               | Some seed => np_random_seed seed | None => rng end).
  pose proof (shuffle_perm rng1 (sorted Id_leb U)) as Horder.
  destruct (np_random_shuffle rng1 (sorted Id_leb U)) as [order rng2].
  simpl in Horder. rewrite sorted_perm in Horder.
  intros [= Hres _].
  assert (Hval : exists cv todo1 U1,
             order = cv ++ todo1 /\
             (forall u, u ∈ U1 <-> u ∈ U /\ u ∉ cv) /\
             (fill graph_ids num_test todo1 U1 [] ≫= fun st2 =>
                let '(test_idxs, _, remaining') := st2 in
                Ok (where_ (fun g => bool_decide (Some g ∈ remaining')) graph_ids,
                    test_idxs, positions_of graph_ids cv))
             = Ok (train_idxs, test_idxs, validation_idxs)).
  { destruct (0 <? num_validation).
    - destruct (fill graph_ids num_validation order U []) as [[[v todo1] U1]|] eqn:H1;
        [|done].
      apply fill_taken in H1 as (cv & -> & -> & HU1). simpl in Hres.
      by exists cv, todo1, U1.
    - simpl in Hres. exists [], order, U.
      split; [done|]. split; [|done].
      intros u. rewrite elem_of_nil. tauto. }
  clear Hres. destruct Hval as (cv & todo1 & U1 & -> & HU1 & Hres).
  destruct (fill graph_ids num_test todo1 U1 []) as [[[t todo2] U2]|] eqn:H2; [|done].
  apply fill_taken in H2 as (ct & -> & -> & HU2). simpl in Hres.
  injection Hres as <- <- <-.
  assert (Hnd : NoDup (cv ++ ct ++ todo2)).
  { rewrite Horder. apply NoDup_unique. }
  apply NoDup_app in Hnd as (Hndv & Hdisj1 & Hnd).
  apply NoDup_app in Hnd as (Hndt & Hdisj2 & Hnd2).
  assert (HU2' : forall u, u ∈ U2 <-> u ∈ todo2).
  { intros u. rewrite HU2, HU1, <- Horder, !elem_of_app.
    split; [tauto|]. intros Hu. split; [split; [tauto|]|].
    - intros Hcv. apply (Hdisj1 u Hcv). rewrite elem_of_app. tauto.
    - intros Hct. by apply (Hdisj2 u Hct). }
  assert (Htrain : forall i, i ∈ where_ (fun g => bool_decide (Some g ∈ U2)) graph_ids
                     <-> exists g, graph_ids !! i = Some g /\ Some g ∈ todo2).
  { intros i. rewrite elem_of_where. split; intros (g & Hg & Hin); exists g;
      (split; [done|]).
    - apply bool_decide_eq_true in Hin. by apply HU2'.
    - apply bool_decide_eq_true. by apply HU2'. }
  split.
  - apply NoDup_Permutation.
    + apply NoDup_app. split; [apply NoDup_where|]. split.
      * intros i Hi Hi'. apply Htrain in Hi as (g & Hg & Hin).
        apply elem_of_app in Hi' as [Hi'|Hi'];
          apply elem_of_positions_of in Hi' as (g' & Hg' & Hin'); simplify_eq.
        -- by apply (Hdisj2 _ Hin').
        -- apply (Hdisj1 _ Hin'). rewrite elem_of_app. tauto.
      * apply NoDup_app. split; [by apply NoDup_positions_of|].
        split; [|by apply NoDup_positions_of].
        intros i Hi Hi'.
        apply elem_of_positions_of in Hi as (g & Hg & Hin).
        apply elem_of_positions_of in Hi' as (g' & Hg' & Hin'). simplify_eq.
        apply (Hdisj1 _ Hin'). rewrite elem_of_app. tauto.
    + apply NoDup_seq.
    + intros i. rewrite !elem_of_app, Htrain, !elem_of_positions_of, elem_of_seq.
      split.
      * intros [(g & Hg & _)|[(g & Hg & _)|(g & Hg & _)]];
          apply lookup_lt_Some in Hg; lia.
      * intros [_ Hi]. destruct (lookup_lt_is_Some_2 graphs i) as [g Hg]; [lia|].
        destruct (Hid i g Hg) as (u & Hu & Hgu).
        assert (Hin : Some u ∈ cv ++ ct ++ todo2).
        { rewrite Horder. apply elem_of_unique. rewrite <- Hgu.
          apply list_elem_of_fmap. exists g. split; [done|].
          by eapply list_elem_of_lookup_2. }
        rewrite !elem_of_app in Hin. destruct Hin as [?|[?|?]]; eauto 6.
  - intros i j gi gj Hi Hj Hsame.
    destruct (Hid i gi Hi) as (ui & Hui & Hgi).
    destruct (Hid j gj Hj) as (uj & Huj & Hgj).
    assert (ui = uj) as -> by congruence.
    rewrite !Htrain, !elem_of_positions_of.
    repeat split; intros (g & Hg & Hin); simplify_eq; eauto.
Qed.

(** X20. Whenever a split by graph id returns, the subsets it returns hold
    every graph exactly once, and all the graphs of one id are in the same
    subset. *)
Lemma split_by_graph_id_returns_partition
      (graphs : list Graph) (p_train p_test p_val : Q)
      (random_seed : option Z) (rng : RngState)
      (train test : list Graph) (validation : option (list Graph)) :
  unique (map graph_id graphs) <> [None] ->
  returned (split_test_train_validation
              Id_leb graph_id np_random_seed np_random_shuffle
              RandomState_permutation
              graphs p_train p_test p_val true random_seed rng)
  = Ok (train, test, validation) ->
  exists train_idxs test_idxs validation_idxs,
    positions graphs train_idxs train /\
    positions graphs test_idxs test /\
    positions graphs validation_idxs (default [] validation) /\
    train_idxs ++ test_idxs ++ validation_idxs ≡ₚ seq 0 (length graphs) /\
    forall i j gi gj,
      graphs !! i = Some gi -> graphs !! j = Some gj -> graph_id gi = graph_id gj ->
      (i ∈ train_idxs <-> j ∈ train_idxs) /\
      (i ∈ test_idxs <-> j ∈ test_idxs) /\
      (i ∈ validation_idxs <-> j ∈ validation_idxs).
Proof.
  intros Hids. unfold split_test_train_validation.
  destruct (Qeq_bool _ 0); [done|]. cbn [andb].
  destruct (_ || _); [done|].
  rewrite bool_decide_false by done. cbn [negb].
  destruct (split_by_graph_id _ _ _ _ _ _ _ _ _ _) as [idxs rng'] eqn:E.
  destruct idxs as [[[train_idxs test_idxs] validation_idxs]|]; [|done].
  apply split_by_graph_id_partition in E as [Hperm Hsame].
  cbn [returned]. simpl.
  destruct (getitem graphs train_idxs) as [tr|] eqn:Htr; [|done].
  destruct (getitem graphs test_idxs) as [te|] eqn:Hte; [|done]. simpl.
  apply getitem_positions in Htr, Hte.
  destruct validation_idxs as [|v vs].
  - intros [= <- <- <-]. exists train_idxs, test_idxs, [].
    repeat split; try done; try apply Hsame; try constructor.
    all: by eapply Hsame.
  - destruct (getitem graphs (v :: vs)) as [va|] eqn:Hva; [|done]. simpl.
    apply getitem_positions in Hva.
    intros [= <- <- <-]. exists train_idxs, test_idxs, (v :: vs).
    repeat split; try done. all: by eapply Hsame.
Qed.

End ByGraphId.

(** C2 (the code as written). Four graphs that all carry the id "A", split
    by graph id in the proportions 2/1/1: the validation loop takes the only
    id, with all four graphs, and the test loop then reads
    [unique_graph_ids_list[1]], past the end of the list. The call raises
    [IndexError] and returns no subsets, whatever the shuffle does. *)
Theorem split_by_graph_id_single_id_raises
        {RngState : Type} (np_random_seed : Z -> RngState)
        (np_random_shuffle :
           RngState -> list (option string) -> list (option string) * RngState)
        (RandomState_permutation : Z -> nat -> list nat)
        (random_seed : option Z) (rng : RngState) :
  (forall r l, (np_random_shuffle r l).1 ≡ₚ l) ->
  returned (split_test_train_validation
              String.leb (fun g : string => Some g)
              np_random_seed np_random_shuffle RandomState_permutation
              ["A"; "A"; "A"; "A"]%string 2 1 1 true random_seed rng)
  = Raise IndexError.
Proof.
  intros Hshuffle.
  unfold split_test_train_validation, split_by_graph_id.
  set (rng1 := match seed_truthy random_seed with
               | Some seed => np_random_seed seed
               | None => rng
               end).
  change (sorted String.leb (unique (map (fun g : string => Some g)
                                         ["A"; "A"; "A"; "A"]%string)))
    with [Some "A"%string].
  pose proof (Hshuffle rng1 [Some "A"%string]) as Hperm.
  destruct (np_random_shuffle rng1 [Some "A"%string]) as [order rng2].
  apply Permutation_singleton_r in Hperm. simpl in Hperm. subst order.
  vm_compute. reflexivity.
Qed.

Lemma split_by_graph_id_single_id_raises_witness :
  returned (split_test_train_validation
              String.leb (fun g : string => Some g)
              (fun _ : Z => tt) (fun (r : unit) l => (reverse l, r))
              (fun _ n => seq 0 n)
              ["A"; "A"; "A"; "A"]%string 2 1 1 true (Some 7) tt)
  = Raise IndexError.
Proof.
  apply (split_by_graph_id_single_id_raises
           (fun _ : Z => tt) (fun (r : unit) l => (reverse l, r))).
  intros r l. apply reverse_Permutation.
Defined.

Example split10_seeded :
  returned (split10 7 2 1 (Some 42))
  = Ok ([109; 108; 107; 106; 105; 104; 103]%nat, [102; 101]%nat, Some [100%nat]).
Proof. reflexivity. Qed.

Example split10_two_way :
  returned (split10 7 3 0 None)
  = Ok ([100; 101; 102; 103; 104; 105; 106]%nat, [107; 108; 109]%nat, None).
Proof. reflexivity. Qed.



End DatasetSpec.

(** ** The converter, further *)

Module ConverterLaws.

Import Py PyFacts Converter Inputs ConverterSpec.

(** *** [_apply_filters] *)

Lemma get_col_defined (name : string) (r r' : Row) :
  is_Some (get_col name r) -> is_Some (get_col name r').
Proof.
  unfold get_col. repeat (case_bool_decide; [by eauto|]). by intros [? ?].
Qed.

(** Writing [a] leaves the ball test unchanged. *)
Lemma ident_set_a (s : Settings) (r : Row) (q : Q) :
  Val_eqb (ident s (set_a r q)) (VStr (ball_id s))
  = Val_eqb (ident s r) (VStr (ball_id s)).
Proof.
  unfold ident, get_col. simpl.
  repeat (case_bool_decide; [reflexivity|]). reflexivity.
Qed.

Lemma Qgtb_refl (q : Q) : Qgtb q q = false.
Proof. unfold Qgtb. apply negb_false_iff, Qle_bool_iff, Qle_refl. Qed.

Lemma clamped_idempotent (s : Settings) (r : Row) :
  clamped s (clamped s r) = clamped s r.
Proof.
  unfold clamped at 1. cbv zeta.
  assert (Hv : filter_v s (ident s (clamped s r)) (clamped s r) = col_v (clamped s r)).
  { unfold filter_v, clamped. rewrite ident_set_a, ident_set_v. simpl.
    unfold filter_v.
    destruct (Val_eqb (ident s r) (VStr (ball_id s))); simpl;
      destruct (Qgtb (col_v r) _) eqn:E; simpl; by rewrite ?Qgtb_refl, ?E. }
  rewrite Hv.
  assert (Ha : filter_a s (ident s (set_v (clamped s r) (col_v (clamped s r))))
                 (set_v (clamped s r) (col_v (clamped s r)))
               = col_a (clamped s r)).
  { unfold filter_a. rewrite ident_set_v. unfold clamped.
    rewrite ident_set_a, ident_set_v. simpl. unfold filter_a.
    rewrite ident_set_v. simpl.
    destruct (Val_eqb (ident s r) (VStr (ball_id s))); simpl;
      destruct (Qgtb (col_a r) _) eqn:E; simpl; by rewrite ?Qgtb_refl, ?E. }
  rewrite Ha. reflexivity.
Qed.

(** Filters that go through on a frame with rows found the identifier
    column. *)
Lemma apply_filters_known (s : Settings) (rows out : list Row) :
  rows <> [] -> _apply_filters s rows = Ok out ->
  known_column (_identifier_column s).
Proof.
  intros Hne Hok. destruct rows as [|r rows]; [done|].
  unfold _apply_filters in Hok.
  destruct (mapM (with_v s) (r :: rows)) as [df1|] eqn:E; [|done].
  apply mapM_Some_1 in E. inversion E as [|? r1 ? ? Hr _]; subst.
  unfold with_v in Hr. intros r'.
  apply (get_col_defined _ r).
  destruct (get_col (_identifier_column s) r) as [v|] eqn:G.
  - by exists v.
  - simpl in Hr. discriminate.
Qed.

(** X1. Filtering twice is filtering once: a frame [_apply_filters] has
    returned goes through it unchanged. *)
Theorem filters_idempotent (s : Settings) (rows out : list Row) :
  _apply_filters s rows = Ok out -> _apply_filters s out = Ok out.
Proof.
  intros Hok. destruct rows as [|r rows].
  { unfold _apply_filters in Hok. simpl in Hok. by injection Hok as <-. }
  assert (Hcol : known_column (_identifier_column s))
    by (by apply (apply_filters_known s (r :: rows) out)).
  rewrite (apply_filters_map s Hcol) in Hok.
  assert (out = map (clamped s) (r :: rows)) as -> by congruence.
  rewrite (apply_filters_map s Hcol). f_equal.
  rewrite map_map. apply map_ext. intros r'. apply clamped_idempotent.
Qed.

Lemma filters_idempotent_witness :
  _apply_filters settings0 [row0 "ball" 28 2; row0 "home" 12 3]
  = Ok [row0 "ball" 28 2; row0 "home" 12 3].
Proof.
  apply (filters_idempotent settings0 [row0 "ball" 40 2; row0 "home" 15 3]).
  reflexivity.
Defined.

Lemma with_v_other (s : Settings) (r r1 : Row) :
  with_v s r = Some r1 -> other_columns r1 = other_columns r.
Proof.
  unfold with_v. destruct (get_col _ r); simpl; [|done]. by intros [= <-].
Qed.

Lemma with_a_other (s : Settings) (r r1 : Row) :
  with_a s r = Some r1 -> other_columns r1 = other_columns r.
Proof.
  unfold with_a. destruct (get_col _ r); simpl; [|done]. by intros [= <-].
Qed.

Lemma mapM_preserves {A B : Type} (f : A -> option A) (g : A -> B)
      (l k : list A) :
  (forall x y, f x = Some y -> g y = g x) ->
  mapM f l = Some k -> map g k = map g l.
Proof.
  intros Hf Hk. apply mapM_Some_1 in Hk.
  induction Hk as [|x y l k Hxy _ IH]; simpl; [done|].
  by rewrite IH, (Hf x y Hxy).
Qed.

(** X2. [_apply_filters] writes the columns [v] and [a] and nothing else:
    the frame it returns has the rows of the input, in their order, with
    every other column as it was. *)
Theorem filters_keep_other_columns (s : Settings) (rows out : list Row) :
  _apply_filters s rows = Ok out ->
  map other_columns out = map other_columns rows.
Proof.
  unfold _apply_filters.
  destruct (mapM (with_v s) rows) as [df1|] eqn:E1; [|done]. simpl.
  destruct (mapM (with_a s) df1) as [df2|] eqn:E2; [|done]. simpl.
  intros [= <-].
  rewrite (mapM_preserves _ other_columns _ _ (with_a_other s) E2).
  apply (mapM_preserves _ other_columns _ _ (with_v_other s) E1).
Qed.

Lemma filters_keep_other_columns_witness :
  map other_columns [row0 "ball" 28 2; row0 "home" 12 3]
  = map other_columns [row0 "ball" 40 2; row0 "home" 15 3].
Proof.
  apply (filters_keep_other_columns settings0). reflexivity.
Defined.

(** *** [_sport_specific_checks] *)

(** X3. The checks pass exactly when the two column names are strings, the
    chunk size is an integer, the graph-id column is a column of the data
    set, the label column is one too unless the converter is in prediction
    mode, and each of the two thresholds is a float or is false as a
    condition ([None], [0], [0.0], the empty string). *)
Theorem checks_accept_iff (c : Config) :
  _sport_specific_checks c = Ok tt <->
  isinstance_str (label_col c) = true /\
  isinstance_str (graph_id_col c) = true /\
  isinstance_int (chunk_size c) = true /\
  (in_columns (label_col c) (dataset_columns c) = true \/ prediction c = true) /\
  in_columns (graph_id_col c) (dataset_columns c) = true /\
  (truthy (ball_carrier_threshold c) = true ->
   isinstance_float (ball_carrier_threshold c) = true) /\
  (truthy (non_potential_receiver_node_value c) = true ->
   isinstance_float (non_potential_receiver_node_value c) = true).
Proof.
  unfold _sport_specific_checks.
  destruct (isinstance_str (label_col c)), (isinstance_str (graph_id_col c)),
    (isinstance_int (chunk_size c)),
    (in_columns (label_col c) (dataset_columns c)), (prediction c),
    (in_columns (graph_id_col c) (dataset_columns c)),
    (truthy (ball_carrier_threshold c)),
    (isinstance_float (ball_carrier_threshold c)),
    (truthy (non_potential_receiver_node_value c)),
    (isinstance_float (non_potential_receiver_node_value c));
    simpl; split; try discriminate; try tauto;
    intros (? & ? & ? & ? & ? & ? & ?); try discriminate;
    intuition discriminate.
Qed.

(** *** [__compute] and [_convert] *)

Lemma column_known (name : string) (group : list Row) (r : Row) :
  is_Some (get_col name r) -> exists col, column name group = Ok col.
Proof.
  intros Hr. unfold column.
  destruct (mapM_is_Some_2 (get_col name) group) as [col ->]; [|by eexists].
  apply Forall_forall. intros r' _. by apply (get_col_defined name r).
Qed.

Lemma column_lookup (name : string) (group : list Row) (col : list Val) (r : Row) (v : Val) :
  column name group = Ok col -> r ∈ group -> get_col name r = Some v -> v ∈ col.
Proof.
  unfold column. destruct (mapM _ group) as [c|] eqn:E; simpl; [|done].
  intros [= <-] Hr Hv. apply mapM_Some_1 in E.
  apply list_elem_of_lookup in Hr as [i Hi].
  destruct (Forall2_lookup_l _ _ _ _ _ E Hi) as (v' & Hv' & Hget).
  rewrite Hv in Hget. injection Hget as <-. by eapply list_elem_of_lookup_2.
Qed.

Lemma all_equal_first_true (col : list Val) (first : Val) :
  head col = Some first ->
  (forall v, v ∈ col -> Val_eqb v first = true) ->
  all_equal_first col = Ok true.
Proof.
  destruct col as [|f col]; [done|]. intros [= ->] Hall.
  unfold all_equal_first. f_equal.
  apply forallb_forall. intros v Hv. by apply Hall, list_elem_of_In.
Qed.

Lemma get_col_row_columns (name : string) (r : Row) :
  get_col name r = None <-> name ∉ row_columns.
Proof.
  destruct (decide (name ∈ row_columns)) as [Hin|Hnot].
  - split; [|done]. intros Hget. exfalso. unfold row_columns in Hin.
    repeat (apply elem_of_cons in Hin as [->|Hin]; [discriminate Hget|]).
    by apply elem_of_nil in Hin.
  - split; [done|]. intros _. unfold row_columns in Hnot.
    rewrite !not_elem_of_cons in Hnot. unfold get_col.
    repeat (rewrite bool_decide_eq_false_2 by tauto). done.
Qed.

Lemma column_unknown (name : string) (r : Row) (rest : list Row) :
  name ∉ row_columns -> column name (r :: rest) = Raise ColumnNotFoundError.
Proof.
  intros Hcol. unfold column. simpl.
  by rewrite (proj2 (get_col_row_columns name r) Hcol).
Qed.

Section Assembly.

Variable NDArray : Type.
Variable shape : NDArray -> nat * nat.
Variable tolist : NDArray -> list (list Q).
Variable get_ball_carrier_idx :
  list Q -> list Q -> list Q -> list string -> list string -> string -> Q -> option nat.
Variable compute_adjacency_matrix_pl :
  list string -> list string -> Settings -> option nat -> NDArray.
Variable compute_edge_features_pl :
  NDArray -> list (Q * Q * Q) -> list (Q * Q) -> list Q -> list (Q * Q) ->
  list string -> Settings -> NDArray.
Variable compute_node_features_pl :
  list Q -> list Q -> list Q -> list (Q * Q) -> list string -> list string ->
  list Z -> Settings -> NDArray.

(** X4. A group whose graph-id cells all equal the first one, and whose
    label cells do too unless the converter is in prediction mode, is
    assembled: [__compute] returns a record, and the record carries the
    graph id and the label of the first row of the group. In prediction
    mode the labels of the other rows are not looked at. *)
Theorem compute_assembles (self : Converter) (group : list Row)
        (graph_ids labels : list Val) (graph_id label : Val) :
  column (cv_graph_id_col self) group = Ok graph_ids ->
  column (cv_label_col self) group = Ok labels ->
  head graph_ids = Some graph_id ->
  head labels = Some label ->
  (forall v, v ∈ graph_ids -> Val_eqb v graph_id = true) ->
  cv_prediction self = true \/ (forall v, v ∈ labels -> Val_eqb v label = true) ->
  exists rec,
    __compute NDArray shape tolist get_ball_carrier_idx compute_adjacency_matrix_pl
              compute_edge_features_pl compute_node_features_pl self group = Ok rec /\
    rec_graph_id rec = graph_id /\
    rec_label rec = label.
Proof.
  intros Hg Hl Hgid Hlab Hids Hlabels. unfold __compute.
  rewrite Hg, Hl. simpl.
  rewrite (all_equal_first_true _ _ Hgid Hids). simpl.
  assert ((if cv_prediction self then Ok true else all_equal_first labels) = Ok true)
    as ->.
  { destruct (cv_prediction self) eqn:Hp; [done|].
    destruct Hlabels as [?|Hlabels]; [done|].
    by apply (all_equal_first_true _ label). }
  simpl. rewrite andb_false_r, Hgid, Hlab. simpl. eauto.
Qed.

(** A group with two graph ids, or with two labels outside prediction
    mode, is rejected. *)
Lemma compute_raises_mixed (self : Converter) (group : list Row)
      (graph_ids labels : list Val) :
  column (cv_graph_id_col self) group = Ok graph_ids ->
  column (cv_label_col self) group = Ok labels ->
  two_distinct graph_ids \/ (cv_prediction self = false /\ two_distinct labels) ->
  raises (__compute NDArray shape tolist get_ball_carrier_idx
                    compute_adjacency_matrix_pl compute_edge_features_pl
                    compute_node_features_pl self group).
Proof.
  intros Hg Hl Hmixed. unfold __compute, raises. rewrite Hg, Hl. simpl.
  destruct Hmixed as [(a & b & Ha & Hb & Hab) | [Hpred (a & b & Ha & Hb & Hab)]].
  - rewrite (all_equal_first_distinct _ _ _ Ha Hb Hab). simpl. eauto.
  - assert (exists g, g ∈ graph_ids) as [g Hgin].
    { apply column_length in Hg, Hl. destruct graph_ids as [|g ?].
      - destruct labels; [by apply elem_of_nil in Ha|]. simpl in *. lia.
      - exists g. by left. }
    destruct (all_equal_first_nonempty _ _ Hgin) as [same ->]. simpl.
    destruct same; simpl; [|eauto].
    rewrite Hpred. rewrite (all_equal_first_distinct _ _ _ Ha Hb Hab). simpl.
    eauto.
Qed.

(** X5. [_convert] returns one record per distinct pair of game id and
    frame id, in the order in which the pairs first appear in the frame:
    the record at position [i] is [__compute] of all the rows that carry the
    [i]-th pair. The period is not part of the key. *)
Theorem convert_one_record_per_game_frame (self : Converter) (dataset : list Row)
        (out : list GraphRecord) :
  _convert NDArray shape tolist get_ball_carrier_idx compute_adjacency_matrix_pl
           compute_edge_features_pl compute_node_features_pl self dataset = Ok out ->
  length out = length (unique (map game_frame dataset)) /\
  forall i k, unique (map game_frame dataset) !! i = Some k ->
    exists rec,
      out !! i = Some rec /\
      __compute NDArray shape tolist get_ball_carrier_idx compute_adjacency_matrix_pl
                compute_edge_features_pl compute_node_features_pl self
                (filter (fun r => game_frame r = k) dataset) = Ok rec.
Proof.
  unfold _convert, group_by. intros Hok. apply DatasetSpec.mapM_Ok in Hok.
  change (fun r : Row => (col_game_id r, col_frame_id r)) with game_frame in Hok.
  split.
  - apply Forall2_length in Hok. by rewrite length_map in Hok.
  - intros i k Hk.
    assert (Hg : map (fun k => (k, filter (fun r => game_frame r = k) dataset))
                     (unique (map game_frame dataset)) !! i
                 = Some (k, filter (fun r => game_frame r = k) dataset)).
    { change (map ?f ?l) with (f <$> l). by rewrite list_lookup_fmap, Hk. }
    destruct (Forall2_lookup_l _ _ _ _ _ Hok Hg) as (rec & Hrec & Hc).
    exists rec. by split.
Qed.

(** X6. Two rows of the frame with the same game id and frame id that
    differ in their graph id, or, outside prediction mode, in their label,
    make [_convert] raise: no record is returned for any frame. *)
Theorem convert_aborts_on_mixed_frame (self : Converter) (dataset : list Row)
        (r1 r2 : Row) (g1 g2 l1 l2 : Val) :
  r1 ∈ dataset -> r2 ∈ dataset -> game_frame r1 = game_frame r2 ->
  get_col (cv_graph_id_col self) r1 = Some g1 ->
  get_col (cv_graph_id_col self) r2 = Some g2 ->
  get_col (cv_label_col self) r1 = Some l1 ->
  get_col (cv_label_col self) r2 = Some l2 ->
  Val_eqb g1 g2 = false \/ (cv_prediction self = false /\ Val_eqb l1 l2 = false) ->
  raises (_convert NDArray shape tolist get_ball_carrier_idx compute_adjacency_matrix_pl
                   compute_edge_features_pl compute_node_features_pl self dataset).
Proof.
  intros H1 H2 Hkey Hg1 Hg2 Hl1 Hl2 Hmixed.
  apply (convert_rejects_batch _ _ _ _ _ _ _ self dataset r1 H1).
  set (group := filter _ dataset).
  assert (Hr1 : r1 ∈ group) by (by apply list_elem_of_filter).
  assert (Hr2 : r2 ∈ group).
  { apply list_elem_of_filter. split; [|done]. symmetry. exact Hkey. }
  destruct (column_known (cv_graph_id_col self) group r1) as [gids Hg]; [by eexists|].
  destruct (column_known (cv_label_col self) group r1) as [labels Hl]; [by eexists|].
  apply (compute_raises_mixed self group gids labels Hg Hl).
  destruct Hmixed as [Hne | [Hpred Hne]]; [left | right; split; [done|]].
  - exists g1, g2. eauto using column_lookup.
  - exists l1, l2. eauto using column_lookup.
Qed.

Lemma compute_needs_label_column (self : Converter) (r : Row) (rest : list Row) :
  cv_label_col self ∉ row_columns ->
  __compute NDArray shape tolist get_ball_carrier_idx compute_adjacency_matrix_pl
            compute_edge_features_pl compute_node_features_pl self (r :: rest)
  = Raise ColumnNotFoundError.
Proof.
  intros Hcol. unfold __compute. rewrite (column_unknown _ r rest Hcol).
  unfold column.
  by destruct (mapM (get_col (cv_graph_id_col self)) (r :: rest)).
Qed.

(** X7. The label column is read for every frame, in prediction mode too:
    when the configured name is not a column of the frame, [_convert] on a
    frame with rows raises [ColumnNotFoundError], although the checks let a
    converter in prediction mode through without that column. *)
Theorem convert_needs_label_column (self : Converter) (dataset : list Row) :
  cv_label_col self ∉ row_columns ->
  dataset <> [] ->
  _convert NDArray shape tolist get_ball_carrier_idx compute_adjacency_matrix_pl
           compute_edge_features_pl compute_node_features_pl self dataset
  = Raise ColumnNotFoundError.
Proof.
  intros Hcol Hne. destruct dataset as [|r rows]; [done|].
  unfold _convert, group_by.
  change (unique (map ?f (r :: rows)))
    with (f r :: filter (fun k => k <> f r) (unique (map f rows))).
  rewrite map_cons, filter_cons_True by done.
  change (mapM ?f (?g :: ?gs)) with (y ← f g; k ← mapM f gs; mret (y :: k)).
  cbn [snd]. by rewrite compute_needs_label_column.
Qed.

End Assembly.

Lemma compute_assembles_witness :
  exists rec,
    __compute (list (list Q)) (fun m => (length m, 0%nat)) (fun m => m)
              no_carrier no_adjacency no_edges no_nodes
              predicting [labelled 1; labelled 0] = Ok rec /\
    rec_graph_id rec = VStr "game" /\
    rec_label rec = VNum 1.
Proof.
  apply (compute_assembles (list (list Q)) (fun m => (length m, 0%nat)) (fun m => m)
           no_carrier no_adjacency no_edges no_nodes
           predicting [labelled 1; labelled 0]
           [VStr "game"; VStr "game"] [VNum 1; VNum 0]).
  - reflexivity.
  - reflexivity.
  - reflexivity.
  - reflexivity.
  - intros v Hv. repeat (apply elem_of_cons in Hv as [->|Hv]; [reflexivity|]).
    by apply elem_of_nil in Hv.
  - by left.
Defined.

Lemma convert_one_record_per_game_frame_witness :
  length [record0] = length (unique (map game_frame [labelled 1; labelled 1])) /\
  forall i k, unique (map game_frame [labelled 1; labelled 1]) !! i = Some k ->
    exists rec,
      [record0] !! i = Some rec /\
      __compute (list (list Q)) (fun m => (length m, 0%nat)) (fun m => m)
                no_carrier no_adjacency no_edges no_nodes converter0
                (filter (fun r => game_frame r = k) [labelled 1; labelled 1]) = Ok rec.
Proof.
  apply (convert_one_record_per_game_frame
           (list (list Q)) (fun m => (length m, 0%nat)) (fun m => m)
           no_carrier no_adjacency no_edges no_nodes converter0
           [labelled 1; labelled 1] [record0]).
  reflexivity.
Defined.

Lemma convert_aborts_on_mixed_frame_witness :
  raises (_convert (list (list Q)) (fun m => (length m, 0%nat)) (fun m => m)
                   no_carrier no_adjacency no_edges no_nodes converter0
                   [labelled 1; labelled 0]).
Proof.
  apply (convert_aborts_on_mixed_frame
           (list (list Q)) (fun m => (length m, 0%nat)) (fun m => m)
           no_carrier no_adjacency no_edges no_nodes converter0
           [labelled 1; labelled 0] (labelled 1) (labelled 0)
           (VStr "game") (VStr "game") (VNum 1) (VNum 0)).
  - apply list_elem_of_here.
  - apply list_elem_of_further, list_elem_of_here.
  - reflexivity.
  - reflexivity.
  - reflexivity.
  - reflexivity.
  - reflexivity.
  - right. split; reflexivity.
Defined.

Lemma convert_needs_label_column_witness :
  _convert (list (list Q)) (fun m => (length m, 0%nat)) (fun m => m)
           no_carrier no_adjacency no_edges no_nodes predictor [labelled 1]
  = Raise ColumnNotFoundError.
Proof.
  apply (convert_needs_label_column
           (list (list Q)) (fun m => (length m, 0%nat)) (fun m => m)
           no_carrier no_adjacency no_edges no_nodes predictor [labelled 1]).
  - apply (bool_decide_unpack _). by vm_compute.
  - discriminate.
Defined.

(** *** Lists *)

Lemma filter_every {A : Type} (P : A -> Prop) `{forall x, Decision (P x)} (l : list A) :
  (forall x, x ∈ l -> P x) -> filter P l = l.
Proof.
  induction l as [|x l IH]; intros Hall; [done|].
  rewrite filter_cons_True by (apply Hall; by left).
  f_equal. apply IH. intros y Hy. apply Hall. by right.
Qed.

Lemma filter_iff_in {A : Type} (P Q : A -> Prop) `{forall x, Decision (P x)}
      `{forall x, Decision (Q x)} (l : list A) :
  (forall x, x ∈ l -> P x <-> Q x) -> filter P l = filter Q l.
Proof.
  induction l as [|x l IH]; intros Hall; [done|].
  rewrite !filter_cons.
  rewrite IH by (intros y Hy; apply Hall; by right).
  pose proof (Hall x (list_elem_of_here _ _)).
  repeat case_decide; tauto || done.
Qed.

Lemma unique_app {K : Type} `{EqDecision K} (l l' : list K) :
  unique (l ++ l') = unique l ++ filter (fun k => k ∉ l) (unique l').
Proof.
  induction l as [|k l IH]; simpl.
  - symmetry. apply filter_every. intros x _. apply not_elem_of_nil.
  - f_equal. rewrite IH, filter_app. f_equal.
    rewrite list_filter_filter. apply list_filter_iff.
    intros x. rewrite not_elem_of_cons. tauto.
Qed.

Lemma unique_app_sub {K : Type} `{EqDecision K} (l l' : list K) :
  l' ⊆ l -> unique (l ++ l') = unique l.
Proof.
  intros Hsub. rewrite unique_app, filter_none, app_nil_r; [done|].
  intros x Hx Hnot. apply Hnot, Hsub. by apply elem_of_unique.
Qed.

Lemma unique_filter {K : Type} `{EqDecision K} (P : K -> Prop)
      `{forall k, Decision (P k)} (l : list K) :
  unique (filter P l) = filter P (unique l).
Proof.
  induction l as [|k l IH]; simpl; [done|].
  destruct (decide (P k)) as [Hk|Hk].
  - rewrite filter_cons_True by done. simpl. rewrite filter_cons_True by done.
    f_equal. rewrite IH, !list_filter_filter. apply list_filter_iff. tauto.
  - rewrite filter_cons_False by done. rewrite filter_cons_False by done.
    rewrite IH, list_filter_filter. apply list_filter_iff.
    intros x. split; [|tauto]. intros Hx. split; [done|]. congruence.
Qed.

Lemma map_filter_key {A K : Type} (key : A -> K) (P : K -> Prop)
      `{forall k, Decision (P k)} (l : list A) :
  map key (filter (fun x => P (key x)) l) = filter P (map key l).
Proof.
  induction l as [|x l IH]; simpl; [done|].
  destruct (decide (P (key x))).
  - rewrite !filter_cons_True by done. simpl. by rewrite IH.
  - by rewrite !filter_cons_False.
Qed.

Lemma filter_all {A : Type} (P : A -> Prop) `{forall x, Decision (P x)} (l : list A) :
  (length l <= length (filter P l))%nat -> forall x, x ∈ l -> P x.
Proof.
  induction l as [|y l IH]; intros Hlen x Hx; [by apply elem_of_nil in Hx|].
  pose proof (length_filter P l) as Hle.
  destruct (decide (P y)) as [Hy|Hy].
  - rewrite filter_cons_True in Hlen by done. simpl in Hlen.
    apply elem_of_cons in Hx as [->|Hx]; [done|]. apply IH; [lia|done].
  - rewrite filter_cons_False in Hlen by done. simpl in Hlen. lia.
Qed.

(** *** [_apply_padding] *)

Section Completeness.

Variable df : list Row.

(** A synthetic row stands for a short group of the frame. *)
Lemma elem_of_padding_df (r : Row) :
  r ∈ padding_df df ->
  exists c, c ∈ counts df /\ cnt_count c < target_length (cnt_key c) /\
            r = padding_row (id_is_string df) c.
Proof.
  unfold padding_df. rewrite elem_of_flat_map. intros (c & Hc & Hr).
  apply list_elem_of_filter in Hc as [Hshort Hc].
  apply elem_of_replicate in Hr as [-> _]. eauto.
Qed.

Lemma col_team_id_padding_row (b : bool) (c : CountRow) :
  col_team_id (padding_row b c) = key_team (cnt_key c).
Proof.
  unfold padding_row. destruct (cnt_key c) as [[[[game period] frame] team] owner].
  reflexivity.
Qed.

(** X8. Padding never makes up a ball: every synthetic row belongs to a
    team group that has rows in the frame and fewer than eleven of them. A
    ball group has its one row or does not exist, so a frame without a ball
    row stays without one. *)
Theorem padding_never_adds_ball (r : Row) :
  r ∈ padding_df df ->
  col_team_id r <> "ball" /\
  (exists base, base ∈ df /\ group_key base = group_key r) /\
  (length (group_rows df (group_key r)) < 11)%nat.
Proof.
  intros Hr. apply elem_of_padding_df in Hr as (c & Hc & Hshort & ->).
  apply elem_of_counts in Hc as (rest & Hrows & Hcount).
  rewrite group_key_padding_row, col_team_id_padding_row.
  assert (Hbase : cnt_first c ∈ group_rows df (cnt_key c)) by (rewrite Hrows; by left).
  apply list_elem_of_filter in Hbase as [Hkey Hbase].
  unfold target_length in Hshort. rewrite Hcount, Hrows in Hshort. simpl in Hshort.
  split; [|split].
  - intros Hball. rewrite bool_decide_true in Hshort by done. lia.
  - eauto.
  - rewrite Hrows. simpl. repeat case_bool_decide; lia.
Qed.

Lemma padding_df_no_ball (fk : FrameKey) :
  filter (fun r => bool_decide (col_team_id r = "ball") = true)
         (filter (fun r => frame_key r = fk) (padding_df df)) = [].
Proof.
  apply filter_none. intros r Hr Hball.
  apply list_elem_of_filter in Hr as [_ Hr].
  apply elem_of_padding_df in Hr as (c & Hc & Hshort & ->).
  apply elem_of_counts in Hc as (rest & Hrows & Hcount).
  apply bool_decide_eq_true in Hball. rewrite col_team_id_padding_row in Hball.
  unfold target_length in Hshort. rewrite bool_decide_true in Hshort by done.
  rewrite Hcount, Hrows in Hshort. simpl in Hshort. lia.
Qed.

Lemma returned_frame (r : Row) :
  groups_to_pad df <> [] ->
  r ∈ pad_rows (_apply_padding df) ->
  filter (fun r' => frame_key r' = frame_key r) (pad_rows (_apply_padding df))
  = filter (fun r' => frame_key r' = frame_key r) (padded df).
Proof.
  intros Hne Hr. pose proof Hr as Hin.
  apply apply_padding_rechecks in Hin as [Hin Hcomplete]; [|done].
  unfold _apply_padding.
  destruct (groups_to_pad df) as [|c cs] eqn:E; [done|]. simpl.
  rewrite list_filter_filter. apply list_filter_iff.
  intros r'. split; [tauto|]. intros Hk. split; [done|].
  apply elem_of_frame_completeness. rewrite Hk. split; [|done].
  apply list_elem_of_fmap. eauto.
Qed.

Lemma owner_padded (r : Row) :
  (forall r', r' ∈ df -> col_ball_owning_team_id r' <> "ball") ->
  r ∈ padded df -> col_ball_owning_team_id r <> "ball".
Proof.
  intros Hown Hr. apply elem_of_app in Hr as [Hr|Hr]; [by apply Hown|].
  apply elem_of_padding_df in Hr as (c & Hc & _ & ->).
  apply elem_of_counts in Hc as (rest & Hrows & _).
  assert (Hbase : cnt_first c ∈ group_rows df (cnt_key c)) by (rewrite Hrows; by left).
  apply list_elem_of_filter in Hbase as [Hkey Hbase].
  specialize (Hown _ Hbase).
  assert (col_ball_owning_team_id (padding_row (id_is_string df) c)
          = key_owner (cnt_key c)) as ->.
  { unfold padding_row. by destruct (cnt_key c) as [[[[game period] frame] team] owner]. }
  by rewrite <- Hkey.
Qed.

Lemma three_classes (rows : list Row) :
  (forall r, r ∈ rows -> col_ball_owning_team_id r <> "ball") ->
  length rows
  = (count_rows (fun r => bool_decide (col_team_id r = "ball")) rows
     + count_rows (fun r => bool_decide (col_team_id r = col_ball_owning_team_id r)) rows
     + count_rows
         (fun r => negb (bool_decide (col_team_id r = "ball"))
                   && negb (bool_decide (col_team_id r = col_ball_owning_team_id r)))
         rows)%nat.
Proof.
  unfold count_rows. induction rows as [|r rows IH]; intros Hown; [done|].
  rewrite !filter_cons. simpl.
  specialize (IH (fun r' Hr' => Hown r' (list_elem_of_further _ _ _ Hr'))).
  pose proof (Hown r (list_elem_of_here _ _)) as Hr.
  repeat case_bool_decide; repeat case_decide; simpl in *; try congruence; try lia.
Qed.

(** X9. Past the early return, every frame handed back is complete: among
    its rows there is exactly one ball row, eleven rows of the team in
    possession and eleven of the other rows; its ball row was in the input;
    and it has twenty-three rows when no row names the ball as the team in
    possession. *)
Theorem apply_padding_returns_complete_frames (r : Row) :
  groups_to_pad df <> [] ->
  r ∈ pad_rows (_apply_padding df) ->
  frame_complete (filter (fun r' => frame_key r' = frame_key r)
                         (pad_rows (_apply_padding df))) = true /\
  count_rows (fun r' => bool_decide (col_team_id r' = "ball"))
             (filter (fun r' => frame_key r' = frame_key r) df) = 1%nat /\
  ((forall r', r' ∈ df -> col_ball_owning_team_id r' <> "ball") ->
   length (filter (fun r' => frame_key r' = frame_key r)
                  (pad_rows (_apply_padding df))) = 23%nat).
Proof.
  intros Hne Hr. rewrite (returned_frame r Hne Hr).
  apply apply_padding_rechecks in Hr as [Hin Hcomplete]; [|done].
  split; [done|].
  unfold frame_complete in Hcomplete.
  apply andb_prop in Hcomplete as [Hcomplete Hother].
  apply andb_prop in Hcomplete as [Hball Howner].
  unfold has_ball, has_owning_team, has_other_team in *.
  apply bool_decide_eq_true in Hball, Howner, Hother.
  split.
  - unfold count_rows, padded in *.
    by rewrite filter_app, filter_app, padding_df_no_ball, app_nil_r in Hball.
  - intros Hown. rewrite three_classes; [lia|].
    intros r' Hr'. apply list_elem_of_filter in Hr' as [_ Hr'].
    by apply owner_padded.
Qed.

Lemma frames_padded :
  unique (map frame_key (padded df)) = unique (map frame_key df).
Proof.
  unfold padded. rewrite map_app. apply unique_app_sub.
  intros fk Hfk. apply list_elem_of_fmap in Hfk as (r & -> & Hr).
  apply elem_of_padding_df in Hr as (c & Hc & _ & ->).
  apply elem_of_counts in Hc as (rest & Hrows & _).
  assert (Hbase : cnt_first c ∈ group_rows df (cnt_key c)) by (rewrite Hrows; by left).
  apply list_elem_of_filter in Hbase as [Hkey Hbase].
  apply list_elem_of_fmap. exists (cnt_first c). split; [|done].
  rewrite (frame_key_of_group _ _ Hkey).
  apply frame_key_of_group, group_key_padding_row.
Qed.

Lemma frame_completeness_filter (result : list Row) :
  frame_completeness result
  = filter (fun fk => frame_complete (filter (fun r => frame_key r = fk) result) = true)
           (unique (map frame_key result)).
Proof.
  unfold frame_completeness, group_by.
  induction (unique (map frame_key result)) as [|fk fks IH]; [done|].
  simpl. rewrite !filter_cons. simpl. destruct (decide _); simpl; by rewrite IH.
Qed.

(** The frames of the returned rows are the complete frames. *)
Lemma frames_returned :
  groups_to_pad df <> [] ->
  unique (map frame_key (pad_rows (_apply_padding df)))
  = frame_completeness (padded df).
Proof.
  intros Hne. unfold _apply_padding.
  destruct (groups_to_pad df) as [|c cs] eqn:E; [done|]. simpl.
  pose proof (map_filter_key frame_key
                (fun fk => fk ∈ frame_completeness (padded df)) (padded df)) as Hmap.
  cbv beta in Hmap. rewrite Hmap, unique_filter. clear Hmap.
  etransitivity; [|symmetry; apply frame_completeness_filter].
  apply filter_iff_in. intros fk Hfk.
  rewrite elem_of_frame_completeness. rewrite elem_of_unique in Hfk. tauto.
Qed.

(** X10. Past the early return, the warning keeps the books of the frames:
    it is issued exactly when a frame is dropped; the total it prints is the
    number of frames of the input (padding adds rows to frames, never a
    frame), the number of dropped frames is that total less the number of
    frames handed back, and the percentage is their ratio. Without a warning
    every row of the padded frame is handed back. *)
Theorem padding_warning_accounts :
  groups_to_pad df <> [] ->
  match pad_warning (_apply_padding df) with
  | None => forall r, r ∈ padded df -> r ∈ pad_rows (_apply_padding df)
  | Some w =>
      total_frames w = Z.of_nat (length (unique (map frame_key df))) /\
      dropped_frames w
      = total_frames w
        - Z.of_nat (length (unique (map frame_key (pad_rows (_apply_padding df))))) /\
      0 < dropped_frames w <= total_frames w /\
      (dropped_pct w == inject_Z (dropped_frames w) / inject_Z (total_frames w) * 100)%Q
  end.
Proof.
  intros Hne. rewrite (frames_returned Hne). unfold _apply_padding.
  destruct (groups_to_pad df) as [|c cs] eqn:E; [done|]. simpl.
  rewrite frames_padded.
  assert (Hle : (length (frame_completeness (padded df))
                 <= length (unique (map frame_key df)))%nat).
  { rewrite frame_completeness_filter, frames_padded. apply length_filter. }
  destruct (0 <? _) eqn:Hdrop; simpl.
  - apply Z.ltb_lt in Hdrop. repeat split; try lia.
  - apply Z.ltb_ge in Hdrop. intros r Hr.
    apply list_elem_of_filter. split; [|done].
    rewrite frame_completeness_filter, frames_padded in *.
    apply list_elem_of_filter.
    assert (Hfk : frame_key r ∈ unique (map frame_key df)).
    { rewrite <- frames_padded. apply elem_of_unique, list_elem_of_fmap. eauto. }
    split; [|done].
    pose proof (filter_all
                  (fun fk => frame_complete
                               (filter (fun r => frame_key r = fk) (padded df)) = true)
                  (unique (map frame_key df))) as Hall.
    cbv beta in Hall. apply Hall; [lia|done].
Qed.

End Completeness.

Lemma padding_never_adds_ball_witness :
  col_team_id padding_home <> "ball" /\
  (exists base, base ∈ short_frame /\ group_key base = group_key padding_home) /\
  (length (group_rows short_frame (group_key padding_home)) < 11)%nat.
Proof.
  apply (padding_never_adds_ball short_frame padding_home).
  assert (E : padding_df short_frame = [padding_home; padding_home]) by reflexivity.
  rewrite E. apply list_elem_of_here.
Defined.

Lemma apply_padding_returns_complete_frames_witness :
  frame_complete (filter (fun r' => frame_key r' = frame_key ball)
                         (pad_rows (_apply_padding short_frame))) = true /\
  count_rows (fun r' => bool_decide (col_team_id r' = "ball"))
             (filter (fun r' => frame_key r' = frame_key ball) short_frame) = 1%nat /\
  length (filter (fun r' => frame_key r' = frame_key ball)
                 (pad_rows (_apply_padding short_frame))) = 23%nat.
Proof.
  assert (H1 : groups_to_pad short_frame <> []) by (vm_compute; discriminate).
  assert (H2 : ball ∈ pad_rows (_apply_padding short_frame)).
  { assert (E : pad_rows (_apply_padding short_frame)
                = short_frame ++ [padding_home; padding_home]) by reflexivity.
    rewrite E. apply list_elem_of_here. }
  destruct (apply_padding_returns_complete_frames short_frame ball H1 H2)
    as (Hcomplete & Hball & Hlen).
  split; [exact Hcomplete|]. split; [exact Hball|].
  apply Hlen. apply Forall_forall. apply (bool_decide_unpack _). by vm_compute.
Defined.

Lemma padding_warning_accounts_witness :
  exists w,
    pad_warning (_apply_padding short_frame_without_ball) = Some w /\
    total_frames w = 1 /\ dropped_frames w = 1 /\ (dropped_pct w == 100)%Q.
Proof.
  assert (H1 : groups_to_pad short_frame_without_ball <> [])
    by (vm_compute; discriminate).
  pose proof (padding_warning_accounts short_frame_without_ball H1) as Hw.
  assert (E : _apply_padding short_frame_without_ball
              = mkPadded [] (Some (mkDropWarning 1 1 ((inject_Z 1 / inject_Z 1) * 100)%Q)))
    by reflexivity.
  rewrite E in Hw. cbn [pad_warning pad_rows] in Hw.
  destruct Hw as (Htotal & Hdropped & _ & Hpct).
  exists (mkDropWarning 1 1 ((inject_Z 1 / inject_Z 1) * 100)%Q).
  rewrite E. split; [reflexivity|].
  split; [exact Htotal|]. split; [exact Hdropped|].
  etransitivity; [exact Hpct|]. vm_compute. reflexivity.
Defined.

(** *** [__post_init__] *)

Lemma is_ball_clamped (s : Settings) (r : Row) :
  known_column (_identifier_column s) ->
  is_ball s (clamped s r) = is_ball s r.
Proof.
  intros Hcol. rewrite !(is_ball_ident s Hcol). unfold clamped.
  by rewrite ident_set_a, ident_set_v.
Qed.

(** The bounds hold of every row [_apply_filters] returns, taken by
    itself. *)
Lemma apply_filters_bounded (s : Settings) (rows out : list Row) (r : Row) :
  _apply_filters s rows = Ok out -> r ∈ out ->
  (col_v r <= max_speed s r)%Q /\ (col_a r <= max_accel s r)%Q.
Proof.
  intros Hok Hr. destruct rows as [|r0 rows].
  { unfold _apply_filters in Hok. simpl in Hok. injection Hok as <-.
    by apply elem_of_nil in Hr. }
  assert (Hcol : known_column (_identifier_column s))
    by (by apply (apply_filters_known s (r0 :: rows) out)).
  rewrite (apply_filters_map s Hcol) in Hok.
  assert (out = map (clamped s) (r0 :: rows)) as -> by congruence.
  apply list_elem_of_fmap in Hr as (r' & -> & _).
  unfold max_speed, max_accel. rewrite (is_ball_clamped s r' Hcol).
  split; [apply (clamped_v_le s Hcol) | apply (clamped_a_le s Hcol)].
Qed.

Lemma padding_row_still (b : bool) (c : CountRow) :
  col_v (padding_row b c) = 0%Q /\ col_a (padding_row b c) = 0%Q.
Proof.
  unfold padding_row. by destruct (cnt_key c) as [[[[game period] frame] team] owner].
Qed.

(** X11. When [__post_init__] goes through, the checks have passed and every
    row of the data set it leaves is within the bounds of the settings: its
    speed is at most the ball bound or the player bound, whichever its
    identifier calls for, and its acceleration likewise. With padding this
    takes bounds that are not negative, since a synthetic row has speed and
    acceleration 0.0. *)
Theorem post_init_bounds_every_row (c : Config) (_apply_settings : result Settings)
        (pad : bool) (dataset : list Row) (s : Settings) (out : Padded) (r : Row) :
  __post_init__ c _apply_settings pad dataset = Ok (s, out) ->
  (pad = true ->
   (0 <= max_player_speed s)%Q /\ (0 <= max_ball_speed s)%Q /\
   (0 <= max_player_acceleration s)%Q /\ (0 <= max_ball_acceleration s)%Q) ->
  r ∈ pad_rows out ->
  _sport_specific_checks c = Ok tt /\
  _apply_settings = Ok s /\
  (col_v r <= max_speed s r)%Q /\ (col_a r <= max_accel s r)%Q.
Proof.
  unfold __post_init__. intros Hok Hpos Hr.
  destruct (_sport_specific_checks c) as [[]|e]; simpl in Hok; [|done].
  destruct _apply_settings as [s'|e]; simpl in Hok; [|done].
  destruct (_apply_filters s' dataset) as [rows|e] eqn:Hf; simpl in Hok; [|done].
  assert (s' = s) as -> by (destruct pad; congruence).
  split; [done|]. split; [done|].
  destruct pad.
  - injection Hok as <-.
    assert (Hin : r ∈ padded rows).
    { unfold _apply_padding in Hr. case_bool_decide; simpl in Hr.
      - unfold padded. apply elem_of_app. by left.
      - by apply list_elem_of_filter in Hr as [_ Hr]. }
    apply elem_of_app in Hin as [Hin|Hin]; [by apply (apply_filters_bounded s dataset rows)|].
    unfold padding_df in Hin. apply elem_of_flat_map in Hin as (cr & _ & Hin).
    apply elem_of_replicate in Hin as [-> _].
    destruct (padding_row_still (id_is_string rows) cr) as [-> ->].
    destruct (Hpos eq_refl) as (? & ? & ? & ?).
    unfold max_speed, max_accel. by destruct (is_ball _ _).
  - injection Hok as <-. simpl in Hr.
    by apply (apply_filters_bounded s dataset rows).
Qed.

Lemma post_init_bounds_every_row_witness :
  _sport_specific_checks (config0 (PInt 20000)) = Ok tt /\
  Ok settings0 = Ok settings0 /\
  (col_v padding_home <= max_speed settings0 padding_home)%Q /\
  (col_a padding_home <= max_accel settings0 padding_home)%Q.
Proof.
  apply (post_init_bounds_every_row (config0 (PInt 20000)) (Ok settings0) true
           short_frame settings0 (_apply_padding short_frame) padding_home).
  - reflexivity.
  - intros _. unfold settings0. simpl. repeat split; lra.
  - assert (E : pad_rows (_apply_padding short_frame)
                = short_frame ++ [padding_home; padding_home]) by reflexivity.
    rewrite E. apply elem_of_app. right. apply list_elem_of_here.
Defined.

(** *** [to_graph_frames], [to_spektral_graphs] and [to_pickle] *)

Section Exports.

Variable NDArray : Type.
Variable Sparse : Type.
Variable shape : NDArray -> nat * nat.
Variable tolist : NDArray -> list (list Q).
Variable get_ball_carrier_idx :
  list Q -> list Q -> list Q -> list string -> list string -> string -> Q -> option nat.
Variable compute_adjacency_matrix_pl :
  list string -> list string -> Settings -> option nat -> NDArray.
Variable compute_edge_features_pl :
  NDArray -> list (Q * Q * Q) -> list (Q * Q) -> list Q -> list (Q * Q) ->
  list string -> Settings -> NDArray.
Variable compute_node_features_pl :
  list Q -> list Q -> list Q -> list (Q * Q) -> list string -> list string ->
  list Z -> Settings -> NDArray.
Variable flatten_to_reshaped_array : list (list Q) -> nat -> nat -> NDArray.
Variable make_sparse : NDArray -> Sparse.
Variable SpektralGraph : Type.
Variable Graph : NDArray -> Sparse -> NDArray -> list Val -> Val -> SpektralGraph.
Variable parent : string -> string.

Lemma ensure_graph_frames_Ok (self : Converter) (dataset : list Row)
      (graph_frames : option (list (GraphDict NDArray Sparse)))
      (frames : list (GraphDict NDArray Sparse)) :
  ensure_graph_frames NDArray Sparse shape tolist get_ball_carrier_idx
                      compute_adjacency_matrix_pl compute_edge_features_pl
                      compute_node_features_pl self dataset graph_frames = Ok frames
  <-> graph_frames = Some frames /\ frames <> [].
Proof.
  unfold ensure_graph_frames, to_graph_frames.
  destruct graph_frames as [[|d ds]|]; simpl.
  - split.
    + by destruct (_convert _ _ _ _ _ _ _ _ _).
    + intros [[= <-] Hne]. by destruct Hne.
  - split; [by intros [= <-]|]. by intros [[= <-] _].
  - split.
    + by destruct (_convert _ _ _ _ _ _ _ _ _).
    + by intros [? _].
Qed.

(** X12. The chunk size only groups the work of the local helper of
    [to_graph_frames]: for any two positive chunk sizes it returns the same
    list, one dictionary per record, in the order of the records. *)
Theorem chunk_size_is_immaterial (self self' : Converter) (df : list GraphRecord) :
  0 < cv_chunk_size self -> 0 < cv_chunk_size self' ->
  convert_to_graph_data_list NDArray Sparse flatten_to_reshaped_array make_sparse self df
  = convert_to_graph_data_list NDArray Sparse flatten_to_reshaped_array make_sparse self' df
  /\ exists graph_list,
       convert_to_graph_data_list NDArray Sparse flatten_to_reshaped_array make_sparse
                                  self df = Ok graph_list /\
       length graph_list = length df /\
       forall i r, df !! i = Some r ->
         graph_list !! i
         = Some (graph_dict NDArray Sparse flatten_to_reshaped_array make_sparse r).
Proof.
  intros Hpos Hpos'.
  rewrite !convert_to_graph_data_list_any_chunk by done.
  split; [done|]. eexists. split; [done|]. split; [by rewrite length_map|].
  intros i r Hi. change (map ?f ?l) with (f <$> l). by rewrite list_lookup_fmap, Hi.
Qed.

(** X13. [to_spektral_graphs] returns graphs only from frames that are
    already stored: with [graph_frames] missing or empty it calls
    [to_graph_frames], which raises, and otherwise it returns one graph per
    stored frame, in order. *)
Theorem to_spektral_graphs_needs_cached_frames (self : Converter) (dataset : list Row)
        (graph_frames : option (list (GraphDict NDArray Sparse)))
        (graphs : list SpektralGraph) :
  to_spektral_graphs NDArray Sparse shape tolist get_ball_carrier_idx
                     compute_adjacency_matrix_pl compute_edge_features_pl
                     compute_node_features_pl SpektralGraph Graph
                     self dataset graph_frames = Ok graphs
  <-> exists frames,
        graph_frames = Some frames /\ frames <> [] /\
        graphs = map (fun d => Graph (gd_x _ _ d) (gd_a _ _ d) (gd_e _ _ d)
                                     (gd_y _ _ d) (gd_id _ _ d)) frames.
Proof.
  unfold to_spektral_graphs. split.
  - destruct (ensure_graph_frames _ _ _ _ _ _ _ _ _ _ _) as [frames|e] eqn:E;
      simpl; [|done].
    intros [= <-]. apply ensure_graph_frames_Ok in E as [-> Hne]. eauto.
  - intros (frames & Hgf & Hne & ->).
    by rewrite (proj2 (ensure_graph_frames_Ok self dataset graph_frames frames)).
Qed.

(** X14. [to_pickle] refuses, with [ValueError], a path that does not end
    in "pickle.gz", before anything else; and it writes only frames that are
    already stored: it creates the parent directories and dumps the stored
    frames exactly when the path has that ending and [graph_frames] is a
    list with elements, and raises otherwise. *)
Theorem to_pickle_writes_cached_frames (self : Converter) (dataset : list Row)
        (graph_frames : option (list (GraphDict NDArray Sparse)))
        (file_path : string) :
  (endswith file_path "pickle.gz" = false ->
   to_pickle NDArray Sparse shape tolist get_ball_carrier_idx
             compute_adjacency_matrix_pl compute_edge_features_pl
             compute_node_features_pl parent self dataset graph_frames file_path
   = Raise ValueError) /\
  (forall actions,
     to_pickle NDArray Sparse shape tolist get_ball_carrier_idx
               compute_adjacency_matrix_pl compute_edge_features_pl
               compute_node_features_pl parent self dataset graph_frames file_path
     = Ok actions
     <-> endswith file_path "pickle.gz" = true /\
         exists frames,
           graph_frames = Some frames /\ frames <> [] /\
           actions = [Mkdir NDArray Sparse (parent file_path);
                      Dump NDArray Sparse file_path frames]).
Proof.
  unfold to_pickle. split.
  - by intros ->.
  - intros actions. destruct (endswith file_path "pickle.gz"); simpl.
    + split.
      * destruct (ensure_graph_frames _ _ _ _ _ _ _ _ _ _ _) as [frames|e] eqn:E;
          simpl; [|done].
        intros [= <-]. apply ensure_graph_frames_Ok in E as [-> Hne]. eauto.
      * intros (_ & frames & Hgf & Hne & ->).
        by rewrite (proj2 (ensure_graph_frames_Ok self dataset graph_frames frames)).
    + split; [done|]. by intros [? _].
Qed.

End Exports.

Lemma chunk_size_is_immaterial_witness :
  convert_to_graph_data_list (list (list Q)) unit (fun m _ _ => m) (fun _ => tt)
                             converter0 [record0; record0; record0]
  = convert_to_graph_data_list (list (list Q)) unit (fun m _ _ => m) (fun _ => tt)
                               converter1 [record0; record0; record0]
  /\ exists graph_list,
       convert_to_graph_data_list (list (list Q)) unit (fun m _ _ => m) (fun _ => tt)
                                  converter0 [record0; record0; record0]
       = Ok graph_list /\
       length graph_list = 3%nat /\
       forall i r, [record0; record0; record0] !! i = Some r ->
         graph_list !! i
         = Some (graph_dict (list (list Q)) unit (fun m _ _ => m) (fun _ => tt) r).
Proof.
  apply (chunk_size_is_immaterial (list (list Q)) unit (fun m _ _ => m) (fun _ => tt)
           converter0 converter1 [record0; record0; record0]); reflexivity.
Defined.

End ConverterLaws.

(** ** The dataset, further *)

Module DatasetLaws.

Import Py PyFacts Dataset Inputs DatasetSpec.

(** *** Sampling *)

Lemma keeps_integer (k i : nat) :
  (0 < k)%nat -> keeps (inject_Z (Z.of_nat k)) i = Ok (i mod k =? 0)%nat.
Proof.
  intros Hk. unfold keeps.
  assert (Qeq_bool (inject_Z (Z.of_nat k)) 0 = false) as ->.
  { destruct (Qeq_bool _ _) eqn:E; [|done].
    apply Qeq_bool_eq in E. unfold Qeq in E. simpl in E. lia. }
  f_equal. unfold py_mod. rewrite <- Zdiv_Qdiv.
  destruct (Nat.eqb_spec (i mod k) 0) as [Hmod|Hmod].
  - apply Qeq_eq_bool. unfold Qeq. simpl.
    assert (Z.of_nat i mod Z.of_nat k = 0) by (rewrite <- Nat2Z.inj_mod; lia).
    pose proof (Z.div_mod (Z.of_nat i) (Z.of_nat k) ltac:(lia)). nia.
  - destruct (Qeq_bool _ _) eqn:E; [|done]. exfalso.
    apply Qeq_bool_eq in E. unfold Qeq in E. simpl in E.
    assert (Z.of_nat i mod Z.of_nat k <> 0) by (rewrite <- Nat2Z.inj_mod; lia).
    pose proof (Z.div_mod (Z.of_nat i) (Z.of_nat k) ltac:(lia)). nia.
Qed.

Lemma sampled_from_every {A : Type} (k i : nat) (l : list A) :
  (0 < k)%nat -> sampled_from (inject_Z (Z.of_nat k)) i l = Ok (every k i l).
Proof.
  intros Hk. revert i. induction l as [|g l IH]; intros i; simpl; [done|].
  rewrite keeps_integer, IH by done. simpl. by destruct (_ =? _)%nat.
Qed.

Lemma every_shift {A : Type} (k i : nat) (l : list A) :
  (0 < k)%nat -> every k (i + k) l = every k i l.
Proof.
  intros Hk. revert i. induction l as [|g l IH]; intros i; simpl; [done|].
  replace ((i + k) mod k)%nat with (i mod k)%nat.
  2: { rewrite <- (Nat.Div0.add_mod_idemp_r i k k), Nat.Div0.mod_same, Nat.add_0_r. done. }
  change (S (i + k)) with (S i + k)%nat. by rewrite IH.
Qed.

(** Between two multiples of [k] nothing is kept. *)
Lemma every_skip {A : Type} (k i d : nat) (l : list A) :
  (0 < i mod k)%nat -> (i mod k + d <= k)%nat ->
  every k i l = every k (i + d) (drop d l).
Proof.
  revert i l. induction d as [|d IH]; intros i l Hi Hd.
  - by rewrite Nat.add_0_r, drop_0.
  - destruct l as [|g l]; [done|]. simpl.
    destruct (Nat.eqb_spec (i mod k) 0) as [?|_]; [lia|].
    destruct (decide (d = 0)%nat) as [->|Hd0].
    { by rewrite drop_0, Nat.add_1_r. }
    assert (Hk : (0 < k)%nat) by lia.
    assert (Hmod : (S i mod k = S (i mod k))%nat).
    { pose proof (Nat.div_mod_eq i k).
      assert (S i = S (i mod k) + (i / k) * k)%nat as -> by lia.
      rewrite Nat.Div0.mod_add. apply Nat.mod_small. lia. }
    rewrite (IH (S i) l) by lia. f_equal. lia.
Qed.

Lemma every_cons {A : Type} (k : nat) (g : A) (l : list A) :
  (0 < k)%nat -> every k 0 (g :: l) = g :: every k 0 (drop (k - 1) l).
Proof.
  intros Hk. simpl. rewrite Nat.Div0.mod_0_l. simpl. f_equal.
  destruct (decide (k = 1)%nat) as [->|Hk1].
  { simpl. rewrite drop_0. apply (every_shift 1 0 l). lia. }
  rewrite (every_skip k 1 (k - 1) l).
  - replace (1 + (k - 1))%nat with (0 + k)%nat by lia. by apply every_shift.
  - rewrite Nat.mod_small; lia.
  - rewrite Nat.mod_small; lia.
Qed.

Lemma every_lookup {A : Type} (k : nat) (l : list A) (j : nat) :
  (0 < k)%nat -> every k 0 l !! j = l !! (j * k)%nat.
Proof.
  intros Hk. revert l. induction j as [|j IH]; intros l.
  - destruct l as [|g l]; [done|]. by rewrite every_cons.
  - destruct l as [|g l]; [done|]. rewrite every_cons by done. simpl.
    rewrite IH, lookup_drop.
    replace (k + j * k)%nat with (S (k - 1 + j * k)) by lia. done.
Qed.

Lemma every_length {A : Type} (k : nat) (l : list A) :
  (0 < k)%nat ->
  (length l <= length (every k 0 l) * k < length l + k)%nat.
Proof.
  intros Hk. set (out := every k 0 l).
  assert (Hlook : forall j, out !! j = l !! (j * k)%nat) by (intros; by apply every_lookup).
  split.
  - pose proof (Hlook (length out)) as H.
    rewrite (lookup_ge_None_2 out) in H by lia.
    symmetry in H. by apply lookup_ge_None_1 in H.
  - destruct (length out) as [|n] eqn:E; [lia|].
    pose proof (Hlook n) as H.
    destruct (lookup_lt_is_Some_2 out n ltac:(lia)) as [x Hx].
    rewrite Hx in H. symmetry in H. apply lookup_lt_Some in H. lia.
Qed.

Section Sampling.

Context {Graph Frame Dict : Type}.
Variable to_spektral_graph : Frame -> Graph.
Variable graph_of_dict : Dict -> Graph.

(** X15. With a sampling step that is a whole number [k] (a sample rate of
    [1/k]), [__convert] keeps of a list of graphs the ones at the positions
    0, [k], [2k], ...: the graph it returns at position [j] is the one the
    list has at position [j * k], so that it returns the ceiling of
    [len / k] graphs; with step 1 it returns the list itself. *)
Theorem convert_keeps_every_kth (self : Self) (k : nat) (graphs : list Graph) :
  sample self = inject_Z (Z.of_nat k) -> (0 < k)%nat -> graphs <> [] ->
  exists kept,
    __convert to_spektral_graph graph_of_dict self (GraphList graphs) = Ok kept /\
    (forall j, kept !! j = graphs !! (j * k)%nat) /\
    (length graphs <= length kept * k < length graphs + k)%nat /\
    (k = 1%nat -> kept = graphs).
Proof.
  intros Hs Hk Hne. exists (every k 0 graphs).
  split; [|split; [|split]].
  - destruct graphs as [|g graphs]; [done|].
    unfold __convert. rewrite Hs. by apply sampled_from_every.
  - intros j. by apply every_lookup.
  - by apply every_length.
  - intros ->. apply list_eq. intros j. rewrite every_lookup by done.
    by rewrite Nat.mul_1_r.
Qed.

(** X16. [read] samples once more: the collection read from graphs that
    [__convert] has already sampled with step [k] holds the graphs found at
    the positions 0, [k * k], [2 * k * k], ... of the original list. *)
Theorem read_samples_again (self : Self) (k : nat) (data : list Graph) :
  sample self = inject_Z (Z.of_nat k) -> (0 < k)%nat -> data <> [] ->
  exists graphs kept,
    __convert to_spektral_graph graph_of_dict self (GraphList data) = Ok graphs /\
    read to_spektral_graph graph_of_dict self graphs = Ok kept /\
    forall j, kept !! j = data !! (j * k * k)%nat.
Proof.
  intros Hs Hk Hne. destruct data as [|g data]; [done|].
  exists (every k 0 (g :: data)), (every k 0 (every k 0 (g :: data))).
  split; [|split].
  - unfold __convert. rewrite Hs. by apply sampled_from_every.
  - unfold read, __convert. rewrite every_cons by done.
    rewrite Hs. by apply sampled_from_every.
  - intros j. by rewrite !every_lookup.
Qed.

(** X17. Handed a list of frames, [__convert] does not convert it: it
    enumerates [self.data], so that any two such lists give the same result,
    and it raises [AttributeError] when the instance has no such
    attribute. *)
Theorem convert_frames_reads_self_data (self : Self) (data1 data2 : list Frame) :
  data1 <> [] -> data2 <> [] ->
  __convert to_spektral_graph graph_of_dict self (FrameList data1)
  = __convert to_spektral_graph graph_of_dict self (FrameList data2) /\
  (self_data self = None ->
   __convert to_spektral_graph graph_of_dict self (FrameList data1)
   = Raise AttributeError).
Proof.
  intros H1 H2. destruct data1 as [|f1 data1]; [done|].
  destruct data2 as [|f2 data2]; [done|].
  split; [done|]. intros Hnone. unfold __convert. by rewrite Hnone.
Qed.

Lemma load_files_appends (self : Self) (acc : list Graph) (files : list (Data Graph Frame Dict))
      (converted : list (list Graph)) :
  Forall2 (fun data graphs =>
             __convert to_spektral_graph graph_of_dict self data = Ok graphs)
          files converted ->
  load_files to_spektral_graph graph_of_dict self (Some acc) files
  = Ok (Some (acc ++ concat converted)).
Proof.
  intros Hall. revert acc.
  induction Hall as [|data graphs files converted Hdata _ IH]; intros acc; simpl.
  - by rewrite app_nil_r.
  - destruct acc as [|g acc]; simpl.
    + rewrite Hdata. simpl. by rewrite IH.
    + unfold add. rewrite Hdata. simpl. rewrite IH. do 2 f_equal.
      symmetry. apply (app_assoc (g :: acc)).
Qed.



End Sampling.

Lemma convert_keeps_every_kth_witness :
  exists kept,
    __convert (fun f : nat => f) (fun d : nat => d) half
              (GraphList [10; 11; 12; 13; 14]%nat) = Ok kept /\
    (forall j, kept !! j = [10; 11; 12; 13; 14]%nat !! (j * 2)%nat) /\
    (5 <= length kept * 2 < 5 + 2)%nat /\
    (2%nat = 1%nat -> kept = [10; 11; 12; 13; 14]%nat).
Proof.
  apply (convert_keeps_every_kth (fun f : nat => f) (fun d : nat => d) half 2
           [10; 11; 12; 13; 14]%nat).
  - reflexivity.
  - lia.
  - discriminate.
Defined.

Lemma read_samples_again_witness :
  exists graphs kept,
    __convert (fun f : nat => f) (fun d : nat => d) half
              (GraphList [10; 11; 12; 13; 14]%nat) = Ok graphs /\
    read (fun f : nat => f) (fun d : nat => d) half graphs = Ok kept /\
    forall j, kept !! j = [10; 11; 12; 13; 14]%nat !! (j * 2 * 2)%nat.
Proof.
  apply (read_samples_again (fun f : nat => f) (fun d : nat => d) half 2
           [10; 11; 12; 13; 14]%nat).
  - reflexivity.
  - lia.
  - discriminate.
Defined.

Lemma convert_frames_reads_self_data_witness :
  __convert (Graph := nat) (Dict := nat) (fun f : nat => f) (fun d : nat => d) half
            (FrameList [1%nat])
  = __convert (fun f : nat => f) (fun d : nat => d) half (FrameList [2; 3]%nat) /\
  (self_data half = None ->
   __convert (Graph := nat) (Dict := nat) (fun f : nat => f) (fun d : nat => d) half
             (FrameList [1%nat])
   = Raise AttributeError).
Proof.
  apply (convert_frames_reads_self_data (fun f : nat => f) (fun d : nat => d) half
           [1%nat] [2; 3]%nat); discriminate.
Defined.



(** *** Splitting by graph id *)

Lemma mapM_result_total {A B : Type} (f : A -> result B) (l : list A) :
  (forall x, x ∈ l -> exists y, f x = Ok y) -> exists k, mapM f l = Ok k.
Proof.
  induction l as [|x l IH]; intros Hall; simpl; [by eexists|].
  destruct (Hall x) as [y ->]; [by left|].
  destruct IH as [k ->]; [intros; apply Hall; by right|].
  simpl. by eexists.
Qed.

Lemma Qgtb_le (a b : Q) : (a <= b)%Q -> Qgtb a b = false.
Proof. intros Hle. unfold Qgtb. apply negb_false_iff. by apply Qle_bool_iff. Qed.

Lemma pct_le (a b total : Q) : (a <= b)%Q -> (0 < total)%Q -> (a / total <= b / total)%Q.
Proof.
  intros Hab Ht. unfold Qdiv. apply Qmult_le_compat_r; [done|].
  apply Qlt_le_weak. by apply Qinv_lt_0_compat.
Qed.

Section ByGraphIdLaws.

Context {Id : Type} `{EqDecision Id}.
Variable Id_leb : Id -> Id -> bool.
Context {Graph : Type}.
Variable graph_id : Graph -> option Id.
Context {RngState : Type}.
Variable np_random_seed : Z -> RngState.
Variable np_random_shuffle :
  RngState -> list (option Id) -> list (option Id) * RngState.
Variable RandomState_permutation : Z -> nat -> list nat.

Hypothesis shuffle_perm : forall rng l, (np_random_shuffle rng l).1 ≡ₚ l.

(** A fill loop that ends has reached its target. *)
Lemma fill_reaches (graph_ids : list Id) (num : Z) (todo unique_graph_ids : list (option Id))
      (idxs idxs' : list nat) (todo' remaining : list (option Id)) :
  fill graph_ids num todo unique_graph_ids idxs = Ok (idxs', todo', remaining) ->
  num <= Z.of_nat (length idxs').
Proof.
  revert unique_graph_ids idxs.
  induction todo as [|u todo IH]; intros unique_graph_ids idxs; simpl.
  - destruct (Z.ltb_spec (Z.of_nat (length idxs)) num); [done|]. by intros [= <- <- <-].
  - destruct (Z.ltb_spec (Z.of_nat (length idxs)) num); [apply IH|].
    by intros [= <- <- <-].
Qed.

(** A fill loop ends when the ids still to hand out cover its target. *)
Lemma fill_succeeds (graph_ids : list Id) (num : Z) (todo unique_graph_ids : list (option Id))
      (idxs : list nat) :
  num <= Z.of_nat (length idxs + length (positions_of graph_ids todo)) ->
  exists idxs' todo' remaining,
    fill graph_ids num todo unique_graph_ids idxs = Ok (idxs', todo', remaining).
Proof.
  revert unique_graph_ids idxs.
  induction todo as [|u todo IH]; intros unique_graph_ids idxs Hnum; simpl.
  - destruct (Z.ltb_spec (Z.of_nat (length idxs)) num); [|eauto].
    simpl in Hnum. lia.
  - destruct (Z.ltb_spec (Z.of_nat (length idxs)) num); [|eauto].
    apply IH. unfold positions_of in *. simpl in Hnum.
    rewrite !length_app in *. lia.
Qed.

Lemma split_by_graph_id_reaches (graphs : list Graph) (random_seed : option Z)
      (unique_graph_ids : list (option Id))
      (num_test num_validation : Z) (rng rng' : RngState)
      (train_idxs test_idxs validation_idxs : list nat) :
  split_by_graph_id Id_leb graph_id np_random_seed np_random_shuffle
                    graphs random_seed unique_graph_ids
                    num_test num_validation rng
  = (Ok (train_idxs, test_idxs, validation_idxs), rng') ->
  num_test <= Z.of_nat (length test_idxs) /\
  num_validation <= Z.of_nat (length validation_idxs).
Proof.
  unfold split_by_graph_id.
  destruct (mapM _ graphs) as [graph_ids|e]; [|done].
  destruct (np_random_shuffle _ _) as [order rng2].
  intros [= Hres _].
  destruct (Z.ltb_spec 0 num_validation) as [Hv|Hv].
  - destruct (fill graph_ids num_validation order _ []) as [[[v todo1] U1]|] eqn:H1;
      [|done].
    simpl in Hres.
    destruct (fill graph_ids num_test todo1 U1 []) as [[[t todo2] U2]|] eqn:H2; [|done].
    simpl in Hres. injection Hres as <- <- <-.
    apply fill_reaches in H1, H2. done.
  - simpl in Hres.
    destruct (fill graph_ids num_test order _ []) as [[[t todo2] U2]|] eqn:H2; [|done].
    simpl in Hres. injection Hres as <- <- <-.
    apply fill_reaches in H2. simpl. lia.
Qed.


(** The positions of the graphs of all the ids are all the positions. *)
Lemma positions_of_all (graph_ids : list Id) (order : list (option Id)) :
  NoDup order ->
  (forall i u, graph_ids !! i = Some u -> Some u ∈ order) ->
  positions_of graph_ids order ≡ₚ seq 0 (length graph_ids).
Proof.
  intros Hnd Hall. apply NoDup_Permutation.
  - by apply NoDup_positions_of.
  - apply NoDup_seq.
  - intros i. rewrite elem_of_positions_of, elem_of_seq. split.
    + intros (g & Hg & _). apply lookup_lt_Some in Hg. lia.
    + intros [_ Hi]. destruct (lookup_lt_is_Some_2 graph_ids i) as [g Hg]; [lia|].
      eauto.
Qed.

Lemma ids_not_missing (graphs : list Graph) :
  (forall g, g ∈ graphs -> is_Some (graph_id g)) ->
  unique (map graph_id graphs) <> [None].
Proof.
  intros Hall Hnone.
  assert (Hin : None ∈ unique (map graph_id graphs)) by (rewrite Hnone; by left).
  apply elem_of_unique, list_elem_of_fmap in Hin as (g & Hg & Hin).
  destruct (Hall g Hin) as [u Hu]. congruence.
Qed.

(** With no validation share the graph-id branch always hands back its
    index lists when every graph has an id. *)
Lemma split_by_graph_id_two_way (graphs : list Graph) (random_seed : option Z)
      (num_test : Z) (rng : RngState) :
  (forall g, g ∈ graphs -> is_Some (graph_id g)) ->
  num_test <= Z.of_nat (length graphs) ->
  exists train_idxs test_idxs rng',
    split_by_graph_id Id_leb graph_id np_random_seed np_random_shuffle
                      graphs random_seed (unique (map graph_id graphs))
                      num_test 0 rng
    = (Ok (train_idxs, test_idxs, []), rng').
Proof.
  intros Hall Hnum. unfold split_by_graph_id.
  destruct (mapM_result_total (fun g => of_option IndexError (graph_id g)) graphs)
    as [graph_ids Hids].
  { intros g Hg. destruct (Hall g Hg) as [u ->]. by eexists. }
  rewrite Hids. apply mapM_Ok in Hids.
  assert (Hlen : length graph_ids = length graphs)
    by (symmetry; by eapply Forall2_length).
  set (rng1 := match seed_truthy random_seed with
               | Some seed => np_random_seed seed | None => rng end).
  pose proof (shuffle_perm rng1 (sorted Id_leb (unique (map graph_id graphs))))
    as Horder.
  destruct (np_random_shuffle rng1 _) as [order rng2].
  simpl in Horder. rewrite sorted_perm in Horder.
  change (0 <? 0) with false. cbn iota. simpl.
  destruct (fill_succeeds graph_ids num_test order (unique (map graph_id graphs)) [])
    as (test_idxs & todo2 & U2 & ->).
  { rewrite positions_of_all.
    - rewrite length_seq. simpl. lia.
    - rewrite Horder. apply NoDup_unique.
    - intros i u Hu. rewrite Horder. apply elem_of_unique.
      destruct (Forall2_lookup_r _ _ _ _ _ Hids Hu) as (g & Hg & Hgu).
      apply list_elem_of_fmap. exists g. split; [|by eapply list_elem_of_lookup_2].
      by destruct (graph_id g); simplify_eq/=. }
  simpl. eauto.
Qed.


(** X23. With a seed that is true as a condition, what a split returns does
    not depend on the state of the process-wide random generator, by graph
    id or not. A split by graph id that returns leaves that generator
    reseeded: its state afterwards is the one [shuffle] leaves when started
    from [np.random.seed(seed)]. *)
Theorem split_seeded_reproducible
        (graphs : list Graph) (p_train p_test p_val : Q) (by_graph_id : bool)
        (random_seed : option Z) (seed : Z) (rng1 rng2 : RngState) :
  seed_truthy random_seed = Some seed ->
  returned (split_test_train_validation
              Id_leb graph_id np_random_seed np_random_shuffle
              RandomState_permutation
              graphs p_train p_test p_val by_graph_id random_seed rng1)
  = returned (split_test_train_validation
              Id_leb graph_id np_random_seed np_random_shuffle
              RandomState_permutation
              graphs p_train p_test p_val by_graph_id random_seed rng2) /\
  (unique (map graph_id graphs) <> [None] ->
   forall subsets,
     returned (split_test_train_validation
                 Id_leb graph_id np_random_seed np_random_shuffle
                 RandomState_permutation
                 graphs p_train p_test p_val true random_seed rng1)
     = Ok subsets ->
     rng_after (split_test_train_validation
                  Id_leb graph_id np_random_seed np_random_shuffle
                  RandomState_permutation
                  graphs p_train p_test p_val true random_seed rng1)
     = (np_random_shuffle (np_random_seed seed)
                          (sorted Id_leb (unique (map graph_id graphs)))).2).
Proof.
  intros Hseed. split.
  - unfold split_test_train_validation.
    destruct (Qeq_bool _ 0); [done|].
    destruct (by_graph_id && _); [done|].
    destruct (negb _); [done|].
    unfold split_by_graph_id. rewrite Hseed.
    destruct (mapM _ graphs); [|done].
    by destruct (np_random_shuffle _ _).
  - intros Hids subsets. unfold split_test_train_validation.
    destruct (Qeq_bool _ 0); [done|]. cbn [andb].
    destruct (_ || _); [done|].
    rewrite bool_decide_false by done. cbn [negb].
    unfold split_by_graph_id. rewrite Hseed.
    destruct (mapM _ graphs); [|done].
    by destruct (np_random_shuffle _ _).
Qed.

(** X24. The proportions are judged before the collection is looked at: a
    total of zero raises [ZeroDivisionError], and a split by graph id with
    proportions out of order raises [NotImplementedError], whatever the
    graphs are, also for a collection without graph ids, for which the split
    would have gone on without the ids; no warning is issued and the random
    generator is not touched. *)
Theorem split_rejects_arguments_first
        (graphs1 graphs2 : list Graph) (p_train p_test p_val : Q) (by_graph_id : bool)
        (random_seed : option Z) (rng : RngState) :
  let total := (p_train + p_test + p_val)%Q in
  Qeq_bool total 0 = true \/
  (by_graph_id = true /\
   Qgtb (p_val / total) (p_train / total)
   || Qgtb (p_test / total) (p_train / total)
   || Qgtb (p_val / total) (p_test / total) = true) ->
  split_test_train_validation
    Id_leb graph_id np_random_seed np_random_shuffle RandomState_permutation
    graphs1 p_train p_test p_val by_graph_id random_seed rng
  = mkOutcome (Raise (if Qeq_bool total 0 then ZeroDivisionError
                      else NotImplementedError)) [] rng /\
  split_test_train_validation
    Id_leb graph_id np_random_seed np_random_shuffle RandomState_permutation
    graphs2 p_train p_test p_val by_graph_id random_seed rng
  = split_test_train_validation
    Id_leb graph_id np_random_seed np_random_shuffle RandomState_permutation
    graphs1 p_train p_test p_val by_graph_id random_seed rng.
Proof.
  intros total Hbad. unfold split_test_train_validation. fold total.
  destruct (Qeq_bool total 0); [done|].
  destruct Hbad as [?|[-> ->]]; done.
Qed.

End ByGraphIdLaws.

Lemma split_by_graph_id_returns_partition_witness :
  exists train_idxs test_idxs validation_idxs,
    positions named train_idxs ["C"%string] /\
    positions named test_idxs ["B"%string] /\
    positions named validation_idxs ["A"; "A"]%string /\
    train_idxs ++ test_idxs ++ validation_idxs ≡ₚ seq 0 (length named) /\
    forall i j gi gj,
      named !! i = Some gi -> named !! j = Some gj -> Some gi = Some gj ->
      (i ∈ train_idxs <-> j ∈ train_idxs) /\
      (i ∈ test_idxs <-> j ∈ test_idxs) /\
      (i ∈ validation_idxs <-> j ∈ validation_idxs).
Proof.
  apply (split_by_graph_id_returns_partition
           String.leb (fun g : string => Some g) (fun _ : Z => tt)
           (fun (r : unit) l => (l, r)) (fun _ n => seq 0 n)
           (fun _ _ => reflexivity _)
           named 2 1 1 (Some 7) tt
           ["C"%string] ["B"%string] (Some ["A"; "A"]%string)).
  - vm_compute. discriminate.
  - vm_compute. reflexivity.
Defined.




Lemma split_seeded_reproducible_witness :
  returned (split_counted 2 1 1 true (Some 7) 0)
  = returned (split_counted 2 1 1 true (Some 7) 1) /\
  (unique (map (fun g : string => Some g) named) <> [None] ->
   forall subsets,
     returned (split_counted 2 1 1 true (Some 7) 0) = Ok subsets ->
     rng_after (split_counted 2 1 1 true (Some 7) 0) = 8%nat).
Proof.
  apply (split_seeded_reproducible
           String.leb (fun g : string => Some g) (fun seed : Z => Z.to_nat seed)
           (fun (r : nat) l => (if Nat.even r then l else reverse l, S r))
           (fun _ n => seq 0 n)
           named 2 1 1 true (Some 7) 7 0%nat 1%nat).
  reflexivity.
Defined.

Lemma split_rejects_arguments_first_witness :
  split_named 0 0 0 false None = mkOutcome (Raise ZeroDivisionError) [] tt /\
  split_test_train_validation String.leb (fun g : string => Some g)
    (fun _ : Z => tt) (fun (r : unit) l => (l, r)) (fun _ n => seq 0 n)
    [] 0 0 0 false None tt
  = split_named 0 0 0 false None.
Proof.
  apply (split_rejects_arguments_first
           String.leb (fun g : string => Some g) (fun _ : Z => tt)
           (fun (r : unit) l => (l, r)) (fun _ n => seq 0 n)
           named [] 0 0 0 false None tt).
  left. reflexivity.
Defined.

End DatasetLaws.
